(** * A shallow embedding of git-diff-clone (src/Differ.py, src/utilities.py)

    The Python program computes a line diff of two documents with Myers'
    algorithm ([myers_diff]), walks the recorded trace backwards
    ([myers_backtrack]), classifies the moves into edits
    ([Differ.myers_git_diff]) and prints them grouped into chunks
    ([Differ.diff]).

    Python lists are modelled as Rocq lists read and written with Python's
    index rule (a negative index counts from the end, anything else out of
    range raises IndexError); exceptions are modelled by an error monad;
    [print] is modelled by the list of lines written so far.  A document
    is modelled twice: as the lines read from its file ([Document],
    [lines]), which is all the algorithm sees, and as a path into a file
    system that may fail to give the file ([Files.lines], [Files.diff]). *)

From stdpp Require Import base numbers list strings pretty sorting.
From Stdlib Require Import ZArith Lia.

Open Scope Z_scope.

(** ** Exceptions and the error monad *)

Inductive exn : Type :=
  | IndexError          (* list index out of range *)
  | AttributeError      (* attribute access on None *)
  | SESTooLong          (* Exception("SES is longer than max length") *)
  | OSError             (* open() failed: FileNotFoundError and the like *)
  | UnicodeDecodeError. (* the bytes of the file are not text *)

Inductive Result (A : Type) : Type :=
  | Ok (a : A)
  | Raise (e : exn).
Arguments Ok {A} a.
Arguments Raise {A} e.

#[global] Instance Result_ret : MRet Result := λ A a, Ok a.

#[global] Instance Result_bind : MBind Result := λ A B f r,
  match r with
  | Ok a => f a
  | Raise e => Raise e
  end.

(** ** Python list indexing *)

Module Py.

(** The position of [l[i]] in [l], when [i] is in range:
    [i] itself if [0 <= i < len(l)], [len(l) + i] if [-len(l) <= i < 0]. *)
Definition index {A} (l : list A) (i : Z) : option nat :=
  let len := Z.of_nat (length l) in
  if decide (0 ≤ i < len) then Some (Z.to_nat i)
  else if decide (- len ≤ i < 0) then Some (Z.to_nat (len + i))
  else None.

(** [l[i]] *)
Definition get {A} (l : list A) (i : Z) : Result A :=
  match index l i with
  | Some p => match l !! p with Some a => Ok a | None => Raise IndexError end
  | None => Raise IndexError
  end.

(** [l[i] = a] *)
Definition set {A} (l : list A) (i : Z) (a : A) : Result (list A) :=
  match index l i with
  | Some p => Ok (<[p := a]> l)
  | None => Raise IndexError
  end.

(** [l[lo:hi]] for [0 <= lo] and [0 <= hi] (the only way [diff] slices) *)
Definition slice {A} (l : list A) (lo hi : Z) : list A :=
  take (Z.to_nat hi - Z.to_nat lo)%nat (drop (Z.to_nat lo) l).

(** [len(l)] *)
Definition len {A} (l : list A) : Z := Z.of_nat (length l).

End Py.

(** ** utilities.py *)

(** class Line: the number of the line and its content; [__eq__] and
    [__ne__] compare the text only. *)
Record Line : Type := mkLine { num : Z; text : string }.

Definition Line_eq (l1 l2 : Line) : bool := bool_decide (text l1 = text l2).

(** The three keys of SYMBOLS and TERM_COLORS used as edit types. *)
Inductive EditType : Type := insert | delete | equal.

#[global] Instance EditType_eq_dec : EqDecision EditType.
Proof. solve_decision. Defined.

Definition SYMBOLS (t : EditType) : string :=
  match t with
  | insert => "+"
  | delete => "-"
  | equal => " "
  end.

Definition ESC : string := String (Ascii.ascii_of_nat 27) "".

Definition TERM_COLORS (t : EditType) : string :=
  match t with
  | insert => ESC +:+ "[92m"
  | equal => ""
  | delete => ESC +:+ "[91m"
  end.

Definition TERM_COLORS_end : string := ESC +:+ "[0m".

(** class Edit: [old] and [new] are whatever the caller passes, a Line or
    None. *)
Record Edit : Type := mkEdit {
  edit_type : EditType;
  old : option Line;
  new : option Line
}.

Definition prefix (e : Edit) : string := SYMBOLS (edit_type e).

(** [x.text] for [x] a Line or None *)
Definition attr_text (x : option Line) : Result string :=
  match x with
  | Some l => Ok (text l)
  | None => Raise AttributeError
  end.

(** [x.num] for [x] a Line or None *)
Definition attr_num (x : option Line) : Result Z :=
  match x with
  | Some l => Ok (num l)
  | None => Raise AttributeError
  end.

(** Edit.__str__ *)
Definition Edit_str (e : Edit) : Result string :=
  let line := match edit_type e with
              | delete => old e
              | _ => new e
              end in
  t ← attr_text line;
  Ok (TERM_COLORS (edit_type e) +:+ prefix e +:+ "    " +:+ t +:+ "    "
      +:+ TERM_COLORS_end).

(** class Document, for a file that has been read: the path and the
    lines of the file without their newline.  The reading itself, which
    can fail, is [Files.lines] below. *)
Record Document : Type := mkDocument {
  filepath : string;
  content : list string
}.

(** Document.lines for a file that has been read: the loop of lines 18-19
    over the stripped lines, [Line(num, text)] for each. *)
Definition lines (doc : Document) : list Line :=
  imap (λ i t, mkLine (Z.of_nat i) t) (content doc).

(** ** Reading a file

    What [open(filepath, "r")] and the iteration over the file object
    give: [open] raises (no such file, no permission, a directory), or
    the decoder raises while the file is read, or the file is read as a
    text.  The text is the decoded one, with every line end as the one
    character "\n", which is what a file opened in text mode delivers. *)
Inductive File : Type :=
  | Absent
  | Undecodable
  | Text (s : string).

(** The character "\n" *)
Definition LF : Ascii.ascii := Ascii.ascii_of_nat 10.

(** [for line in file]: the text cut after every "\n"; each line keeps
    its "\n", and the last one has none when the text does not end with
    one. *)
Fixpoint readlines (s : string) : list string :=
  match s with
  | EmptyString => []
  | String c s' =>
      if bool_decide (c = LF) then String c EmptyString :: readlines s'
      else match readlines s' with
           | [] => [String c EmptyString]
           | l :: ls => String c l :: ls
           end
  end.

(** [line.rstrip("\n")]: the line without the "\n"s at its end. *)
Fixpoint rstrip (s : string) : string :=
  match s with
  | EmptyString => EmptyString
  | String c s' =>
      match rstrip s' with
      | EmptyString =>
          if bool_decide (c = LF) then EmptyString else String c EmptyString
      | r => String c r
      end
  end.

(** ** Python's [range] and [enumerate] *)

Module PyIter.

(** [range(lo, hi, step)] for a positive [step] *)
Definition range (lo hi step : Z) : list Z :=
  (λ i, lo + step * Z.of_nat i) <$> seq 0 (Z.to_nat ((hi - lo + step - 1) `div` step)).

(** [enumerate(l)] *)
Definition enumerate {A} (l : list A) : list (Z * A) :=
  imap (λ i x, (Z.of_nat i, x)) l.

End PyIter.

(** ** Differ.py: myers_diff *)

(** The test of lines 38 and 70,
    [k == -d or (k != d and v[k - 1] < v[k + 1])], with Python's
    short-circuit evaluation. *)
Definition goes_down (d k : Z) (v : list Z) : Result bool :=
  if bool_decide (k = - d) then Ok true
  else if bool_decide (k ≠ d) then
    l ← Py.get v (k - 1);
    r ← Py.get v (k + 1);
    Ok (bool_decide (l < r))
  else Ok false.

(** The loop of lines 46-47,
    [while x < m and y < n and a[x] == b[y]: x, y = x + 1, y + 1].
    Every round increases [x] and needs [x < m], so [m - x] rounds are
    enough; [snake_fuel] below shows that more of them change nothing. *)
Fixpoint snake (a b : list Line) (fuel : nat) (x y : Z) : Result (Z * Z) :=
  match fuel with
  | O => Ok (x, y)
  | S fuel' =>
      if bool_decide (x < Py.len a) && bool_decide (y < Py.len b) then
        ax ← Py.get a x;
        by_ ← Py.get b y;
        if Line_eq ax by_ then snake a b fuel' (x + 1) (y + 1) else Ok (x, y)
      else Ok (x, y)
  end.

(** Where the search returned: the distance [d], the diagonal [k] and the
    end point [(x, y)] of the path that passed the test of line 51. *)
Record Stop : Type := mkStop { stop_d : Z; stop_k : Z; stop_x : Z; stop_y : Z }.

(** Lines 38-41: the [x] after the single step down or to the right. *)
Definition start_x (d k : Z) (v : list Z) : Result Z :=
  down ← goes_down d k v;
  if down : bool then Py.get v (k + 1)
  else p ← Py.get v (k - 1); Ok (p + 1).

(** Lines 38-49: the body of the loop over [k] up to [v[k] = x]. *)
Definition extend (a b : list Line) (d k : Z) (v : list Z)
  : Result (list Z * Z * Z) :=
  x ← start_x d k v;
  let y := x - k in
  xy ← snake a b (Z.to_nat (Py.len a - x)) x y;
  v' ← Py.set v k xy.1;
  Ok (v', xy.1, xy.2).

(** Line 51: [x >= n and y >= m] *)
Definition at_end (m n x y : Z) : bool :=
  bool_decide (x >= n) && bool_decide (y >= m).

(** Lines 35-52: [for k in range(-d, d+1, 2)]; [inr] is the return of
    line 52, [inl] the array after the last [k]. *)
Fixpoint for_k (a b : list Line) (d : Z) (ks : list Z) (v : list Z)
  : Result (list Z + Stop) :=
  match ks with
  | [] => Ok (inl v)
  | k :: ks' =>
      r ← extend a b d k v;
      let '(v', x, y) := r in
      if at_end (Py.len a) (Py.len b) x y then Ok (inr (mkStop d k x y))
      else for_k a b d ks' v'
  end.

(** Lines 34-54: [for d in range(MAX+1)], with [trace.append(v[:])] after
    each distance and the exception of line 54 after the last one. *)
Fixpoint for_d (a b : list Line) (ds : list Z) (v : list Z)
    (trace : list (list Z)) : Result (list (list Z) * Stop) :=
  match ds with
  | [] => Raise SESTooLong
  | d :: ds' =>
      r ← for_k a b d (PyIter.range (- d) (d + 1) 2) v;
      match r with
      | inr st => Ok (trace, st)
      | inl v' => for_d a b ds' v' (trace ++ [v'])
      end
  end.

(** [myers_diff] together with the place where it returned. *)
Definition myers_search (a b : list Line) : Result (list (list Z) * Stop) :=
  let m := Py.len a in
  let n := Py.len b in
  let MAX := m + n in
  let v := replicate (Z.to_nat (2 * MAX + 1)) (-1) in
  v ← Py.set v 1 0;
  for_d a b (PyIter.range 0 (MAX + 1) 1) v [].

Definition myers_diff (a b : list Line) : Result (list (list Z)) :=
  r ← myers_search a b; Ok r.1.

(** ** Differ.py: myers_backtrack *)

(** A yielded tuple [(prev_x, prev_y, x, y)]. *)
Definition Move : Type := Z * Z * Z * Z.

(** The loops of lines 83-85 and 95-97,
    [while x > prev_x and y > prev_y: yield (x-1, y-1, x, y); x, y = x-1, y-1]:
    the tuples yielded and the final [(x, y)].  Every round decreases [x]
    and needs [x > prev_x], so [x - prev_x] rounds are enough
    ([back_snake_fuel] below). *)
Fixpoint back_snake (fuel : nat) (x y prev_x prev_y : Z) : list Move * (Z * Z) :=
  match fuel with
  | O => ([], (x, y))
  | S fuel' =>
      if bool_decide (x > prev_x) && bool_decide (y > prev_y) then
        let r := back_snake fuel' (x - 1) (y - 1) prev_x prev_y in
        ((x - 1, y - 1, x, y) :: r.1, r.2)
      else ([], (x, y))
  end.

(** Lines 66-91: the loop over the reversed, enumerated trace; the tuples
    yielded, in the order of the yields, and the final [(x, y)]. *)
Fixpoint back_loop (tr : list (Z * list Z)) (x y : Z)
  : Result (list Move * (Z * Z)) :=
  match tr with
  | [] => Ok ([], (x, y))
  | (d, v) :: tr' =>
      let k := x - y in
      down ← goes_down d k v;
      let prev_k := if down : bool then k + 1 else k - 1 in
      prev_x ← Py.get v prev_k;
      let prev_y := prev_x - prev_k in
      let s := back_snake (Z.to_nat (x - prev_x)) x y prev_x prev_y in
      let edge := if bool_decide (d > 0)
                  then [(prev_x, prev_y, s.2.1, s.2.2)] else [] in
      r ← back_loop tr' prev_x prev_y;
      Ok (s.1 ++ edge ++ r.1, r.2)
  end.

(** The generator [myers_backtrack], as the list of what it yields.  A
    list index out of range inside it, like one in its consumer, ends
    [myers_git_diff] with IndexError before anything is returned, so the
    generator is run to its end here. *)
Definition myers_backtrack (trace : list (list Z)) (a b : list Line)
  : Result (list Move) :=
  let x := Py.len a in
  let y := Py.len b in
  let trace_enum := reverse (PyIter.enumerate trace) in
  r ← back_loop trace_enum x y;
  let s := back_snake (Z.to_nat r.2.1) r.2.1 r.2.2 0 0 in
  Ok (r.1 ++ s.1).

(** ** Differ.py: class Differ *)

Module Differ.

Definition BUFFER : Z := 6.

(** Lines 125-134: the body of the loop over the moves;
    [diff.appendleft(e)] is [e :: diff]. *)
Definition classify (a b : list Line) (diff : list Edit) (mv : Move)
  : Result (list Edit) :=
  let '(prev_x, prev_y, x, y) := mv in
  a_line ← (if bool_decide (prev_x < Py.len a)
            then l ← Py.get a prev_x; Ok (Some l) else Ok None);
  b_line ← (if bool_decide (prev_y < Py.len b)
            then l ← Py.get b prev_y; Ok (Some l) else Ok None);
  match a_line, b_line with
  | Some _, Some _ =>
      if bool_decide (x = prev_x) then Ok (mkEdit insert a_line b_line :: diff)
      else if bool_decide (y = prev_y) then Ok (mkEdit delete a_line b_line :: diff)
      else Ok (mkEdit equal a_line b_line :: diff)
  | _, _ => Ok diff
  end.

Fixpoint classify_all (a b : list Line) (diff : list Edit) (mvs : list Move)
  : Result (list Edit) :=
  match mvs with
  | [] => Ok diff
  | mv :: mvs' => diff' ← classify a b diff mv; classify_all a b diff' mvs'
  end.

Definition myers_git_diff (a b : list Line) : Result (list Edit) :=
  trace ← myers_diff a b;
  backtrack ← myers_backtrack trace a b;
  classify_all a b [] backtrack.

(** Lines 152-154: the positions of the edits that are not "equal". *)
Definition diff_locs (diff : list Edit) : list Z :=
  omap (λ p : Z * Edit,
          match edit_type p.2 with equal => None | _ => Some p.1 end)
       (PyIter.enumerate diff).

(** The variables of the chunk loop: [chunk_locs], and [chunk_start] and
    [prev_loc], which are None together (before the first location) and
    set together. *)
Record Chunker : Type := mkChunker {
  chunk_locs : list (Z * Z);
  open_chunk : option (Z * Z)     (* (chunk_start, prev_loc) *)
}.

(** Lines 167-176: the body of the loop over [enumerate(diff_locs)];
    [last] is [len(diff_locs) - 1]. *)
Definition chunk_step (last : Z) (st : Chunker) (p : Z * Z) : Chunker :=
  let '(num, diff_loc) := p in
  match open_chunk st with
  | None => mkChunker (chunk_locs st) (Some (diff_loc, diff_loc))
  | Some (chunk_start, prev_loc) =>
      if bool_decide (diff_loc - prev_loc ≤ BUFFER) && bool_decide (num ≠ last)
      then mkChunker (chunk_locs st) (Some (chunk_start, diff_loc))
      else if bool_decide (num ≠ last)
      then mkChunker (chunk_locs st ++ [(chunk_start, prev_loc)])
                     (Some (diff_loc, diff_loc))
      else mkChunker (chunk_locs st ++ [(chunk_start, diff_loc)])
                     (Some (chunk_start, prev_loc))
  end.

(** Lines 156-178: the chunks to print. *)
Definition chunks (locs : list Z) : list (Z * Z) :=
  if bool_decide (Py.len locs > 1) then
    chunk_locs (foldl (chunk_step (Py.len locs - 1)) (mkChunker [] None)
                      (PyIter.enumerate locs))
  else if bool_decide (Py.len locs = 1) then [(0, 0)]
  else [].

(** Line 182: the edits of a chunk with the buffer around them. *)
Definition window (diff : list Edit) (c : Z * Z) : list Edit :=
  Py.slice diff (Z.max 0 (c.1 - BUFFER)) (Z.min (Py.len diff) (c.2 + 1 + BUFFER)).

Definition count_type (t : EditType) (es : list Edit) : Z :=
  Py.len (filter (λ e, edit_type e = t) es).

(** Lines 183-198: the header of a chunk. *)
Definition header (to_print : list Edit) : Result string :=
  let insertions := count_type insert to_print in
  let deletions := count_type delete to_print in
  first ← Py.get to_print 0;
  old_start ← attr_num (old first);
  let old_length := Py.len to_print - insertions in
  first' ← Py.get to_print 0;
  new_start ← attr_num (new first');
  let new_length := Py.len to_print - deletions in
  Ok ("@@   -" +:+ pretty old_start +:+ "," +:+ pretty old_length +:+
      " +" +:+ pretty new_start +:+ "," +:+ pretty new_length +:+ "   @@").

End Differ.

(** ** Printing

    What a run has written to standard output, line by line, and the
    exception that ended it, if one did. *)
Definition Printed : Type := list string * option exn.

Definition then_print (out : list string) (k : Printed) : Printed :=
  (out ++ k.1, k.2).

Module Render.

Import Differ.

(** Lines 201-202: [for edit in to_print: print(edit)] *)
Fixpoint print_edits (es : list Edit) : Printed :=
  match es with
  | [] => ([], None)
  | e :: es' =>
      match Edit_str e with
      | Ok s => then_print [s] (print_edits es')
      | Raise x => ([], Some x)
      end
  end.

(** Lines 182-203: one round of the loop over [chunk_locs]. *)
Definition print_chunk (diff : list Edit) (c : Z * Z) : Printed :=
  let to_print := window diff c in
  match header to_print with
  | Raise x => ([], Some x)
  | Ok h =>
      then_print [h]
        (match print_edits to_print with
         | (out, None) => (out ++ [""], None)
         | r => r
         end)
  end.

(** Lines 181-203: [for start, end in chunk_locs] *)
Fixpoint print_chunks (diff : list Edit) (cs : list (Z * Z)) : Printed :=
  match cs with
  | [] => ([], None)
  | c :: cs' =>
      match print_chunk diff c with
      | (out, None) => then_print out (print_chunks diff cs')
      | r => r
      end
  end.

(** Lines 148-203: everything [diff] does with the edits. *)
Definition print_diff (diff : list Edit) : Printed :=
  print_chunks diff (chunks (diff_locs diff)).

(** Differ.diff *)
Definition diff (doc1 doc2 : Document) : Printed :=
  then_print ["Difference between:";
              "a/ " +:+ filepath doc1;
              "b/ " +:+ filepath doc2]
    (match myers_git_diff (lines doc1) (lines doc2) with
     | Ok d => print_diff d
     | Raise x => ([], Some x)
     end).

End Render.

(** ** Documents as paths

    [Document.lines] and [Differ.diff] with the file system made
    explicit: a document is its [filepath], and the file system tells
    what reading the file at a path gives. *)

Module Files.

Definition FileSystem : Type := string → File.

(** Document.lines (utilities.py, lines 16-20) *)
Definition lines (fs : FileSystem) (filepath : string) : Result (list Line) :=
  match fs filepath with
  | Absent => Raise OSError
  | Undecodable => Raise UnicodeDecodeError
  | Text s =>
      Ok (imap (λ i line, mkLine (Z.of_nat i) (rstrip line)) (readlines s))
  end.

(** Differ.diff: the three [print]s, then [doc1.lines()], then
    [doc2.lines()], then [myers_git_diff] and the printing of the
    chunks. *)
Definition diff (fs : FileSystem) (path1 path2 : string) : Printed :=
  then_print ["Difference between:"; "a/ " +:+ path1; "b/ " +:+ path2]
    (match (l1 ← lines fs path1;
            l2 ← lines fs path2;
            Differ.myers_git_diff l1 l2) with
     | Ok d => Render.print_diff d
     | Raise x => ([], Some x)
     end).

End Files.

(** ** The notions the specification speaks of *)

Module Spec.

Import Differ.

(** The lines of a file whose content is [ts], as [Document.lines]
    builds them. *)
Definition numbered (ts : list string) : list Line :=
  lines (mkDocument "" ts).

(** The edits that are not "equal". *)
Definition non_equal (es : list Edit) : list Edit :=
  filter (λ e, edit_type e ≠ equal) es.

(** The reference for the edit distance: the least number of line
    insertions and deletions (no substitution) that turn [a] into [b],
    by the usual recurrence on the two sequences. *)
Fixpoint dp_edit_distance (a b : list Line) : nat :=
  match a with
  | [] => length b
  | x :: a' =>
      (fix against (b : list Line) : nat :=
         match b with
         | [] => length a
         | y :: b' =>
             if Line_eq x y then dp_edit_distance a' b'
             else S (Nat.min (dp_edit_distance a' b) (against b'))
         end) b
  end.

(** The old references of the edits that are not inserts, and the new
    references of the edits that are not deletes, in order. *)
Definition old_side (es : list Edit) : list (option Line) :=
  old <$> filter (λ e, edit_type e ≠ insert) es.

Definition new_side (es : list Edit) : list (option Line) :=
  new <$> filter (λ e, edit_type e ≠ delete) es.

(** An edit as the specification writes it: its kind and the text it
    shows. *)
Definition shown (e : Edit) : EditType * option string :=
  (edit_type e,
   text <$> match edit_type e with delete => old e | _ => new e end).

(** Position [i] of the edit list lies in the window printed for the
    chunk [c]. *)
Definition covers (diff : list Edit) (c : Z * Z) (i : Z) : Prop :=
  Z.max 0 (c.1 - BUFFER) ≤ i < Z.min (Py.len diff) (c.2 + 1 + BUFFER).

#[global] Instance covers_dec diff c i : Decision (covers diff c i).
Proof. unfold covers. apply _. Defined.

(** The edit was built from a line of [a] and a line of [b], each read
    at an index below the length of its sequence. *)
Definition both_lines (a b : list Line) (e : Edit) : Prop :=
  ∃ i j la lb,
    i < Py.len a ∧ j < Py.len b ∧
    Py.get a i = Ok la ∧ Py.get b j = Ok lb ∧
    old e = Some la ∧ new e = Some lb.

(** Neither line of the edit is None. *)
Definition has_lines (e : Edit) : Prop :=
  is_Some (old e) ∧ is_Some (new e).

(** The edit that pairs a line with itself. *)
Definition same (l : Line) : Edit := mkEdit equal (Some l) (Some l).

(** The chunks whose window contains position [i]. *)
Definition hunks_covering (diff : list Edit) (i : Z) : list (Z * Z) :=
  filter (λ c, covers diff c i) (chunks (diff_locs diff)).

(** The text has no "\n" in it. *)
Definition newline_free (s : string) : Prop :=
  LF ∉ String.list_ascii_of_string s.

(** The text ends with "\n". *)
Fixpoint ends_with_newline (s : string) : bool :=
  match s with
  | EmptyString => false
  | String c s' =>
      match s' with
      | EmptyString => bool_decide (c = LF)
      | String _ _ => ends_with_newline s'
      end
  end.

(** The text with a "\n" added at its end when it has a last line that
    lacks one. *)
Definition closed (s : string) : string :=
  if ends_with_newline s || bool_decide (s = EmptyString) then s
  else s +:+ String LF EmptyString.

(** The texts written one after the other, each followed by "\n". *)
Definition unlines (ts : list string) : string :=
  foldr (λ t r, t +:+ String LF r) EmptyString ts.

(** What one round of the printing loop writes for the window [w]: the
    header, the line of each edit, in order, and an empty line. *)
Definition block_of (w : list Edit) (blk : list string) : Prop :=
  ∃ h ss, header w = Ok h ∧ Forall2 (λ e s, Edit_str e = Ok s) w ss
          ∧ blk = h :: ss ++ [""].

End Spec.

(** ** The chunk loop as a recursion over the locations

    What the loop of lines 166-176 appends after it has seen the first
    location: [s] is [chunk_start], [p] is [prev_loc] and [rest] are the
    locations still to come.  [fold_group] below shows that the loop
    computes it. *)

Module Grouping.

Fixpoint group (s p : Z) (rest : list Z) : list (Z * Z) :=
  match rest with
  | [] => []
  | l :: rest' =>
      match rest' with
      | [] => [(s, l)]
      | _ :: _ =>
          if bool_decide (l - p ≤ Differ.BUFFER) then group s l rest'
          else (s, p) :: group l l rest'
      end
  end.

(** Chunks in increasing order, each from a start to an end that is not
    before it, and each starting more than BUFFER after the end of the
    one before. *)
Inductive gapped : list (Z * Z) → Prop :=
  | gapped_nil : gapped []
  | gapped_one s e : s ≤ e → gapped [(s, e)]
  | gapped_cons s e s' e' cs :
      s ≤ e → e + Differ.BUFFER < s' → gapped ((s', e') :: cs) →
      gapped ((s, e) :: (s', e') :: cs).

(** Position [i] is one of the locations that chunk [c] was made of, or
    lies between two of them. *)
Definition inside (c : Z * Z) (i : Z) : Prop := c.1 ≤ i ≤ c.2.

(** Position [i] is within BUFFER of chunk [c]. *)
Definition near (c : Z * Z) (i : Z) : Prop :=
  c.1 - Differ.BUFFER ≤ i ≤ c.2 + Differ.BUFFER.

#[global] Instance near_dec c i : Decision (near c i).
Proof. unfold near. apply _. Defined.

End Grouping.

(** ** Invariants of the distance search *)

Module Frontier.

(** The array has an entry for every diagonal from [-MAX] to [MAX]. *)
Definition shaped (MAX : Z) (v : list Z) : Prop := Py.len v = 2 * MAX + 1.

(** [x] can end a path of [d] non-diagonal moves on diagonal [k], for
    sequences of [m] and [n] lines: the end point [(x, x - k)] has no
    negative coordinate, is at least [d] moves away from the origin, and
    the path has at most [m] and at most [n] diagonal moves, which are
    [(x + (x - k) - d) / 2]. *)
Definition reach (m n d k x : Z) : Prop :=
  0 ≤ x ∧ k ≤ x ∧ d ≤ 2 * x - k
  ∧ 2 * x - k - d ≤ 2 * m ∧ 2 * x - k - d ≤ 2 * n.

(** The first [cnt] diagonals of distance [d], that is [-d], [-d + 2],
    ..., hold such end points. *)
Definition filled (m n d cnt : Z) (v : list Z) : Prop :=
  ∀ j, 0 ≤ j < cnt →
       ∃ x, Py.get v (2 * j - d) = Ok x ∧ reach m n d (2 * j - d) x.

(** What the round of distance [d] reads: the sentinel [v[1] = 0] for
    [d = 0], the end points of distance [d - 1] after that. *)
Definition ready (m n d : Z) (v : list Z) : Prop :=
  if decide (d = 0) then Py.get v 1 = Ok 0 else filled m n (d - 1) d v.

(** The diagonals beyond [-d] and [d] still hold the initial -1, the
    sentinel at diagonal 1 apart while no round has written there. *)
Definition beyond (MAX d : Z) (v : list Z) : Prop :=
  ∀ k, - MAX ≤ k ≤ MAX → k < - d ∨ d < k → (d ≤ 0 → k ≠ 1) →
       Py.get v k = Ok (-1).

(** The array as it is appended to the trace after the round of distance
    [d]: the end points of distance [d], those of distance [d - 1] on the
    diagonals between them, and -1 beyond. *)
Definition snapshot (m n d : Z) (v : list Z) : Prop :=
  shaped (m + n) v
  ∧ filled m n d (d + 1) v
  ∧ filled m n (d - 1) d v
  ∧ beyond (m + n) d v
  ∧ (d = 0 → Py.get v 1 = Ok 0).

(** Every element of the trace is the snapshot of its index. *)
Definition snapshots (m n : Z) (trace : list (list Z)) : Prop :=
  ∀ (j : nat) v, trace !! j = Some v → snapshot m n (Z.of_nat j) v.

(** The reversed, enumerated trace: snapshots paired with their indices,
    from [d] down to 0. *)
Inductive countdown (m n : Z) : Z → list (Z * list Z) → Prop :=
  | countdown_nil : countdown m n (-1) []
  | countdown_cons d v tr :
      0 ≤ d → snapshot m n d v → countdown m n (d - 1) tr →
      countdown m n d ((d, v) :: tr).

(** A move that starts at a point with no negative coordinate. *)
Definition from_quadrant (mv : Move) : Prop :=
  0 ≤ mv.1.1.1 ∧ 0 ≤ mv.1.1.2.

End Frontier.

(** ** The inputs of the scenarios *)

Module Inputs.

Definition abc : list string := ["a"; "b"; "c"].
Definition axc : list string := ["a"; "x"; "c"].

(** A change after seven common lines. *)
Definition late_old : list string :=
  ["l0"; "l1"; "l2"; "l3"; "l4"; "l5"; "l6"; "p"; "z"].
Definition late_new : list string :=
  ["l0"; "l1"; "l2"; "l3"; "l4"; "l5"; "l6"; "q"; "z"].

(** Two changes with fourteen common lines between them. *)
Definition far_old : list string :=
  ["a"; "p"; "c0"; "c1"; "c2"; "c3"; "c4"; "c5"; "c6"; "c7"; "c8"; "c9";
   "c10"; "c11"; "c12"; "c13"; "r"].
Definition far_new : list string :=
  ["a"; "q"; "c0"; "c1"; "c2"; "c3"; "c4"; "c5"; "c6"; "c7"; "c8"; "c9";
   "c10"; "c11"; "c12"; "c13"; "s"].

(** The text of a file with the two lines a and b, the second one
    without a line end. *)
Definition text_ab : string :=
  "a" +:+ String LF "b".

(** An edit list with one change, and one with two changes after a
    common line. *)
Definition one_change : list Edit :=
  [mkEdit equal (Some (mkLine 0 "a")) (Some (mkLine 0 "a"));
   mkEdit insert (Some (mkLine 1 "c")) (Some (mkLine 1 "b"));
   mkEdit equal (Some (mkLine 1 "c")) (Some (mkLine 2 "c"))].

Definition two_changes : list Edit :=
  [mkEdit equal (Some (mkLine 0 "a")) (Some (mkLine 0 "a"));
   mkEdit delete (Some (mkLine 1 "b")) (Some (mkLine 1 "x"));
   mkEdit insert (Some (mkLine 2 "c")) (Some (mkLine 1 "x"));
   mkEdit equal (Some (mkLine 2 "c")) (Some (mkLine 2 "c"))].

End Inputs.

(** * Theorems *)

(** ** The error monad *)

Lemma bind_Ok {A B} (r : Result A) (f : A → Result B) (y : B) :
  r ≫= f = Ok y ↔ ∃ x, r = Ok x ∧ f x = Ok y.
Proof.
  destruct r as [x|e]; simpl; split.
  - intros H. by exists x.
  - by intros (x' & [= <-] & H).
  - done.
  - by intros (x' & [=] & _).
Qed.

(** ** Python list indexing *)

#[global] Arguments Py.get : simpl never.
#[global] Arguments Py.set : simpl never.

Section PyLemmas.

Context {A : Type}.
Implicit Types (l : list A) (i k : Z).

Lemma get_raise l i x : Py.get l i = Raise x → x = IndexError.
Proof.
  unfold Py.get. destruct (Py.index l i) as [p|]; [|congruence].
  destruct (l !! p); congruence.
Qed.

Lemma get_elem_of l i x : Py.get l i = Ok x → x ∈ l.
Proof.
  unfold Py.get. destruct (Py.index l i) as [p|]; [|done].
  destruct (l !! p) eqn:Hp; [|done]. intros [= <-].
  by eapply list_elem_of_lookup_2.
Qed.

Lemma index_lt l i p : Py.index l i = Some p → (p < length l)%nat.
Proof.
  unfold Py.index. repeat case_decide; intros [= <-]; lia.
Qed.

(** An index from 0 to len(l) - 1 reads the element at that position. *)
Lemma get_in_range l i :
  0 ≤ i < Py.len l → ∃ x, Py.get l i = Ok x ∧ l !! Z.to_nat i = Some x.
Proof.
  intros Hi. unfold Py.get, Py.index. fold (Py.len l).
  rewrite decide_True by done.
  destruct (lookup_lt_is_Some_2 l (Z.to_nat i)) as [x Hx].
  { unfold Py.len in Hi. lia. }
  exists x. by rewrite Hx.
Qed.

(** An assignment within the range succeeds, keeps the length, is read
    back at its index, and leaves every other index alone: [k'] names
    the same element as [k] only if they are equal or len(l) apart. *)
Lemma set_spec l k (x : A) :
  - Py.len l ≤ k < Py.len l →
  ∃ l', Py.set l k x = Ok l' ∧ length l' = length l ∧ Py.get l' k = Ok x ∧
        ∀ k', k' ≠ k → k' ≠ k + Py.len l → k' ≠ k - Py.len l →
              Py.get l' k' = Py.get l k'.
Proof.
  intros Hk. unfold Py.set.
  destruct (Py.index l k) as [p|] eqn:Hp; last first.
  { unfold Py.index in Hp. fold (Py.len l) in Hp.
    repeat case_decide; try done; lia. }
  eexists. split; [done|]. split; [apply length_insert|].
  pose proof (index_lt _ _ _ Hp) as Hlt.
  assert (∀ k', Py.index (<[p:=x]> l) k' = Py.index l k') as Hidx.
  { intros k'. unfold Py.index. by rewrite length_insert. }
  split.
  - unfold Py.get. rewrite Hidx, Hp.
    by rewrite list_lookup_insert_eq.
  - intros k' H1 H2 H3. unfold Py.get. rewrite Hidx.
    destruct (Py.index l k') as [p'|] eqn:Hp'; [|done].
    rewrite list_lookup_insert_ne; [done|].
    unfold Py.index in Hp, Hp'. fold (Py.len l) in Hp, Hp'.
    unfold Py.len in *.
    repeat case_decide; simplify_eq; lia.
Qed.

Lemma len_nonneg l : 0 ≤ Py.len l.
Proof. unfold Py.len. lia. Qed.

Lemma get_replicate (x : A) (cnt : nat) k :
  - Z.of_nat cnt ≤ k < Z.of_nat cnt → Py.get (replicate cnt x) k = Ok x.
Proof.
  intros Hk. unfold Py.get, Py.index. rewrite length_replicate.
  repeat case_decide; try lia; by rewrite lookup_replicate_2 by lia.
Qed.

(** The indices [k] and [k - len(l)] name the same element. *)
Lemma get_wrap l k :
  0 ≤ k < Py.len l → Py.get l (k - Py.len l) = Py.get l k.
Proof.
  intros Hk. unfold Py.get, Py.index, Py.len in *.
  rewrite (decide_False (P := 0 ≤ k - _ < _)) by lia.
  rewrite (decide_True (P := - _ ≤ k - _ < 0)) by lia.
  rewrite (decide_True (P := 0 ≤ k < _)) by lia.
  by replace (Z.to_nat (Z.of_nat (length l) + (k - Z.of_nat (length l))))
    with (Z.to_nat k) by lia.
Qed.

End PyLemmas.

(** ** The ranges of the two loops *)

Lemma range_distances hi :
  PyIter.range 0 hi 1 = Z.of_nat <$> seq 0 (Z.to_nat hi).
Proof.
  unfold PyIter.range.
  replace (hi - 0 + 1 - 1) with hi by lia. rewrite Z.div_1_r.
  apply list_fmap_ext. intros _ i _. lia.
Qed.

Lemma range_diagonals d :
  PyIter.range (- d) (d + 1) 2
  = (λ i, 2 * Z.of_nat i - d) <$> seq 0 (Z.to_nat (d + 1)).
Proof.
  unfold PyIter.range.
  replace (d + 1 - - d + 2 - 1) with ((d + 1) * 2) by lia.
  rewrite Z.div_mul by done.
  apply list_fmap_ext. intros _ i _. lia.
Qed.

(** ** The snake *)

Section Snake.

Variables a b : list Line.

(** From a point with no negative coordinate the loop reads inside both
    sequences only, so it returns, at a point of the same diagonal; if it
    has moved at all, it ends inside the grid. *)
Lemma snake_ok fuel : ∀ x y,
  0 ≤ x → 0 ≤ y →
  ∃ x', snake a b fuel x y = Ok (x', y + (x' - x)) ∧ x ≤ x'
        ∧ (x' = x ∨ (x' ≤ Py.len a ∧ y + (x' - x) ≤ Py.len b)).
Proof.
  induction fuel as [|fuel IH]; intros x y Hx Hy; simpl.
  - exists x. split_and!; [|lia|by left]. do 2 f_equal. lia.
  - destruct (decide (x < Py.len a)) as [Hxm|Hxm];
      [rewrite (bool_decide_true (x < _)) by done
      |rewrite (bool_decide_false (x < _)) by done]; simpl; last first.
    { exists x. split_and!; [|lia|by left]. do 2 f_equal. lia. }
    destruct (decide (y < Py.len b)) as [Hyn|Hyn];
      [rewrite (bool_decide_true (y < _)) by done
      |rewrite (bool_decide_false (y < _)) by done]; simpl; last first.
    { exists x. split_and!; [|lia|by left]. do 2 f_equal. lia. }
    destruct (get_in_range a x) as (ax & -> & _); [lia|].
    destruct (get_in_range b y) as (by_ & -> & _); [lia|]. simpl.
    destruct (Line_eq ax by_).
    + destruct (IH (x + 1) (y + 1)) as (x' & -> & Hx' & Hin); [lia..|].
      exists x'. split_and!; [|lia|right; lia]. do 2 f_equal. lia.
    + exists x. split_and!; [|lia|by left]. do 2 f_equal. lia.
Qed.

(** [len(a) - x] rounds are all the loop can make: more fuel changes
    nothing. *)
Lemma snake_fuel fuel : ∀ x y,
  (Z.to_nat (Py.len a - x) ≤ fuel)%nat →
  snake a b fuel x y = snake a b (Z.to_nat (Py.len a - x)) x y.
Proof.
  induction fuel as [|fuel IH]; intros x y Hfuel.
  - by replace (Z.to_nat (Py.len a - x)) with 0%nat by lia.
  - destruct (decide (x < Py.len a)) as [Hxm|Hxm].
    + replace (Z.to_nat (Py.len a - x))
        with (S (Z.to_nat (Py.len a - (x + 1)))) by lia.
      simpl. rewrite IH by lia. done.
    + replace (Z.to_nat (Py.len a - x)) with 0%nat by lia.
      simpl. by rewrite (bool_decide_false (x < _)) by done.
Qed.

End Snake.

(** ** The walk back along a snake *)

(** [x - prev_x] rounds are all the loops of lines 83 and 95 can make:
    more fuel changes nothing. *)
Lemma back_snake_fuel fuel : ∀ x y prev_x prev_y,
  (Z.to_nat (x - prev_x) ≤ fuel)%nat →
  back_snake fuel x y prev_x prev_y
  = back_snake (Z.to_nat (x - prev_x)) x y prev_x prev_y.
Proof.
  induction fuel as [|fuel IH]; intros x y prev_x prev_y Hfuel.
  - by replace (Z.to_nat (x - prev_x)) with 0%nat by lia.
  - destruct (decide (x > prev_x)) as [Hx|Hx].
    + replace (Z.to_nat (x - prev_x))
        with (S (Z.to_nat (x - 1 - prev_x))) by lia.
      simpl. rewrite IH by lia. done.
    + replace (Z.to_nat (x - prev_x)) with 0%nat by lia.
      simpl. by rewrite (bool_decide_false (x > _)) by done.
Qed.

(** ** The search returns *)

Section Search.

Import Frontier.

Variables a b : list Line.

Local Abbreviation m := (Py.len a).
Local Abbreviation n := (Py.len b).
Local Abbreviation MAX := (Py.len a + Py.len b).

(** One of the two sequences has a line. *)
Hypothesis some_line : 1 ≤ MAX.

Lemma start_x_ok d i v :
  0 ≤ i ≤ d → ready m n d v →
  ∃ x, start_x d (2 * i - d) v = Ok x ∧ reach m n d (2 * i - d) x.
Proof.
  intros Hi Hr. unfold start_x, goes_down, ready in *.
  pose proof (len_nonneg a). pose proof (len_nonneg b).
  destruct (decide (i = 0)) as [->|Hi0].
  - rewrite bool_decide_true by lia. simpl.
    destruct (decide (d = 0)) as [->|Hd0].
    + replace (2 * 0 - 0 + 1) with 1 by lia.
      rewrite Hr. exists 0. unfold reach. split; [done|lia].
    + destruct (Hr 0) as (x & Hx & Hrx); [lia|].
      replace (2 * 0 - d + 1) with (2 * 0 - (d - 1)) by lia.
      rewrite Hx. exists x. unfold reach in *. split; [done|lia].
  - rewrite bool_decide_false by lia.
    rewrite decide_False in Hr by lia.
    destruct (Hr (i - 1)) as (xl & Hxl & Hrl); [lia|].
    replace (2 * (i - 1) - (d - 1)) with (2 * i - d - 1) in * by lia.
    destruct (decide (i = d)) as [->|Hid].
    + rewrite bool_decide_false by lia. simpl.
      rewrite Hxl. simpl. exists (xl + 1).
      unfold reach in *. split; [done|lia].
    + rewrite bool_decide_true by lia.
      destruct (Hr i) as (xr & Hxr & Hrr); [lia|].
      replace (2 * i - (d - 1)) with (2 * i - d + 1) in * by lia.
      rewrite Hxl, Hxr. simpl.
      destruct (bool_decide (xl < xr)); simpl.
      * exists xr. unfold reach in *. split; [done|lia].
      * exists (xl + 1). unfold reach in *. split; [done|lia].
Qed.

Lemma extend_ok d i v :
  0 ≤ i ≤ d → d ≤ MAX → shaped MAX v → ready m n d v →
  ∃ v' x,
    extend a b d (2 * i - d) v = Ok (v', x, x - (2 * i - d)) ∧
    reach m n d (2 * i - d) x ∧
    shaped MAX v' ∧
    Py.get v' (2 * i - d) = Ok x ∧
    ∀ k', - MAX ≤ k' ≤ MAX → k' ≠ 2 * i - d → Py.get v' k' = Py.get v k'.
Proof.
  intros Hi Hd Hv Hr. unfold extend.
  destruct (start_x_ok d i v Hi Hr) as (x0 & -> & Hx0). simpl.
  unfold reach in Hx0.
  destruct (snake_ok a b (Z.to_nat (m - x0)) x0 (x0 - (2 * i - d)))
    as (x & -> & Hx & Hin); [lia..|]. simpl.
  unfold shaped in Hv.
  destruct (set_spec v (2 * i - d) x) as (v' & -> & Hlen & Hget & Hother);
    [lia|]. simpl.
  exists v', x. split_and!.
  - do 2 f_equal. lia.
  - unfold reach. lia.
  - unfold shaped, Py.len. rewrite Hlen. done.
  - done.
  - intros k' Hk' Hne. apply Hother; lia.
Qed.

Lemma for_k_ok d :
  0 ≤ d ≤ MAX →
  ∀ cnt i0 v,
    Z.of_nat i0 + Z.of_nat cnt = d + 1 →
    shaped MAX v → ready m n d v → filled m n d (Z.of_nat i0) v →
    ∃ r, for_k a b d ((λ i, 2 * Z.of_nat i - d) <$> seq i0 cnt) v = Ok r ∧
         match r with
         | inl v' => shaped MAX v' ∧ filled m n d (d + 1) v' ∧
                     ¬ (d = MAX ∧ Z.of_nat i0 ≤ n) ∧
                     ∀ k', - MAX ≤ k' ≤ MAX →
                           (∀ j, Z.of_nat i0 ≤ j ≤ d → k' ≠ 2 * j - d) →
                           Py.get v' k' = Py.get v k'
         | inr st => stop_d st = d ∧
                     at_end m n (stop_x st) (stop_y st) = true ∧
                     - d ≤ stop_k st ≤ d ∧
                     stop_y st = stop_x st - stop_k st ∧
                     reach m n d (stop_k st) (stop_x st)
         end.
Proof.
  intros Hd. induction cnt as [|cnt IH]; intros i0 v Hcnt Hv Hr Hf.
  - simpl. exists (inl v). split; [done|]. split_and!; [done| | |done].
    + by replace (d + 1) with (Z.of_nat i0) by lia.
    + unfold Py.len in *. lia.
  - simpl.
    destruct (extend_ok d (Z.of_nat i0) v) as (v' & x & -> & Hx & Hv' & Hget & Hother);
      [lia|lia|done|done|]. simpl.
    destruct (at_end m n x (x - (2 * Z.of_nat i0 - d))) eqn:Hend.
    { eexists (inr _). split; [done|]. simpl. split_and!; [done..|lia|lia|done|done]. }
    destruct (IH (S i0) v') as (r & Hfor & Hres); [lia|done| | |].
    + (* the round of distance d still finds what it reads *)
      unfold ready in *. destruct (decide (d = 0)) as [->|Hd0].
      * rewrite Hother; [done|lia|lia].
      * intros j Hj. destruct (Hr j Hj) as (xj & Hxj & Hrj).
        exists xj. split; [|done]. rewrite Hother; [done|lia|lia].
    + (* one more diagonal of distance d is filled *)
      intros j Hj. destruct (decide (j = Z.of_nat i0)) as [->|Hne].
      * exists x. done.
      * destruct (Hf j) as (xj & Hxj & Hrj); [lia|].
        exists xj. split; [|done]. rewrite Hother; [done|lia|lia].
    + exists r. split; [exact Hfor|]. destruct r as [v''|st]; [|done].
      destruct Hres as (Hv'' & Hf'' & Hlast & Hframe).
      split_and!; [done..| |].
      * intros [-> Hi0]. apply Hlast. split; [done|].
        destruct (decide (Z.of_nat i0 = n)) as [Heq|]; [|lia].
        (* on diagonal n - m, at distance m + n, the test of line 51 holds *)
        exfalso. unfold at_end, reach in *.
        rewrite !bool_decide_true in Hend by lia. done.
      * intros k' Hk' Hnot. rewrite Hframe; [|done|intros j Hj; apply Hnot; lia].
        apply Hother; [done|]. apply Hnot. lia.
Qed.

(** A full round of distance [d] keeps the end points of distance [d - 1]
    it has read and the -1 beyond, and makes the array a snapshot. *)
Lemma round_snapshot d v v' :
  0 ≤ d ≤ MAX → ready m n d v → beyond MAX (d - 1) v →
  shaped MAX v' → filled m n d (d + 1) v' →
  (∀ k', - MAX ≤ k' ≤ MAX → (∀ j, 0 ≤ j ≤ d → k' ≠ 2 * j - d) →
         Py.get v' k' = Py.get v k') →
  snapshot m n d v'.
Proof.
  intros Hd Hr Hb Hv' Hf' Hframe. unfold snapshot. split_and!; [done..| | |].
  - intros j Hj. unfold ready in Hr. rewrite decide_False in Hr by lia.
    destruct (Hr j) as (x & Hx & Hrx); [lia|].
    exists x. split; [|done]. rewrite Hframe; [done|lia|lia].
  - intros k Hk Hout Hone. rewrite Hframe; [|done|lia].
    apply Hb; [done|lia|lia].
  - intros ->. unfold ready in Hr. simpl in Hr.
    rewrite Hframe; [done|lia|lia].
Qed.

Lemma for_d_ok : ∀ cnt d0 v trace,
  Z.of_nat d0 + Z.of_nat cnt = MAX + 1 → (1 ≤ cnt)%nat →
  shaped MAX v → ready m n (Z.of_nat d0) v →
  beyond MAX (Z.of_nat d0 - 1) v →
  length trace = d0 → snapshots m n trace →
  ∃ tr st, for_d a b (Z.of_nat <$> seq d0 cnt) v trace = Ok (tr, st) ∧
           Z.of_nat (length tr) = stop_d st ∧ stop_d st ≤ MAX ∧
           at_end m n (stop_x st) (stop_y st) = true ∧
           - stop_d st ≤ stop_k st ≤ stop_d st ∧
           stop_y st = stop_x st - stop_k st ∧
           reach m n (stop_d st) (stop_k st) (stop_x st) ∧
           snapshots m n tr.
Proof.
  induction cnt as [|cnt IH];
    intros d0 v trace Hcnt Hpos Hv Hr Hb Htr Hsn; [lia|].
  simpl. rewrite range_diagonals.
  destruct (for_k_ok (Z.of_nat d0)) with (cnt := Z.to_nat (Z.of_nat d0 + 1))
    (i0 := 0%nat) (v := v) as (r & -> & Hres); [lia|lia|done|done| |].
  { intros j Hj. lia. }
  simpl. destruct r as [v'|st].
  - destruct Hres as (Hv' & Hf' & Hlast & Hframe).
    assert (Z.of_nat d0 ≠ MAX) as Hne.
    { intros Heq. apply Hlast. unfold Py.len. split; [done|lia]. }
    assert (snapshot m n (Z.of_nat d0) v') as Hsnap.
    { apply (round_snapshot _ v); [lia|done..|].
      intros k' Hk' Hnot. apply Hframe; [done|]. intros j Hj. apply Hnot. lia. }
    destruct (IH (S d0) v' (trace ++ [v'])) as (tr & st & Hfor & Hrest);
      [lia|lia|done| | | |..].
    + unfold ready. rewrite decide_False by lia.
      replace (Z.of_nat (S d0) - 1) with (Z.of_nat d0) by lia.
      by replace (Z.of_nat (S d0)) with (Z.of_nat d0 + 1) by lia.
    + replace (Z.of_nat (S d0) - 1) with (Z.of_nat d0) by lia.
      by destruct Hsnap as (_ & _ & _ & ? & _).
    + rewrite length_app. simpl. lia.
    + intros j w Hj. apply lookup_app_Some in Hj as [Hj|[Hlen Hj]].
      * by apply Hsn.
      * apply list_lookup_singleton_Some in Hj as [Hj0 <-].
        by replace j with d0 by lia.
    + exists tr, st. done.
  - destruct Hres as (Hd & Hend & Hk & Hy & Hreach). exists trace, st.
    rewrite Hd. split_and!; try done; lia.
Qed.

(** The search returns a trace, after at most [MAX] full rounds, at a
    point that passes the test of line 51; neither an index out of
    range nor the exception of line 54 is reached.  The elements of the
    trace are the snapshots of the rounds before. *)
Lemma myers_search_ok :
  ∃ trace st, myers_search a b = Ok (trace, st) ∧
              Z.of_nat (length trace) = stop_d st ∧ stop_d st ≤ MAX ∧
              at_end m n (stop_x st) (stop_y st) = true ∧
              - stop_d st ≤ stop_k st ≤ stop_d st ∧
              stop_y st = stop_x st - stop_k st ∧
              reach m n (stop_d st) (stop_k st) (stop_x st) ∧
              snapshots m n trace.
Proof.
  unfold myers_search.
  destruct (set_spec (replicate (Z.to_nat (2 * MAX + 1)) (-1)) 1 0)
    as (v & -> & Hlen & Hget & Hother).
  { unfold Py.len at 1 4. rewrite length_replicate. lia. }
  simpl. rewrite range_distances.
  apply for_d_ok; [lia|lia| | | |done|].
  - unfold shaped, Py.len at 1. rewrite Hlen, length_replicate. lia.
  - done.
  - intros k Hk _ Hone. rewrite Hother.
    + apply get_replicate. lia.
    + lia.
    + unfold Py.len at 1. rewrite length_replicate. lia.
    + unfold Py.len at 1. rewrite length_replicate. lia.
  - intros j w Hj. done.
Qed.

End Search.

(** ** The walk back through the trace *)

Section Backtrack.

Import Frontier.

Variables a b : list Line.

Local Abbreviation m := (Py.len a).
Local Abbreviation n := (Py.len b).
Local Abbreviation MAX := (Py.len a + Py.len b).

(** The reversed, enumerated trace counts down from its last index. *)
Lemma countdown_trace (trace : list (list Z)) :
  snapshots m n trace →
  countdown m n (Z.of_nat (length trace) - 1)
            (reverse (PyIter.enumerate trace)).
Proof.
  induction trace as [|v trace IH] using rev_ind; intros Hsn.
  - constructor.
  - unfold PyIter.enumerate. rewrite imap_app, reverse_app. simpl.
    rewrite length_app. simpl.
    replace (Z.of_nat (length trace + 1) - 1)
      with (Z.of_nat (length trace + 0)) by lia.
    constructor; [lia| |].
    + apply Hsn. rewrite Nat.add_0_r.
      by rewrite lookup_app_r, Nat.sub_diag by lia.
    + replace (Z.of_nat (length trace + 0) - 1)
        with (Z.of_nat (length trace) - 1) by lia.
      apply IH. intros j w Hj. apply Hsn.
      by rewrite lookup_app_l by (by eapply lookup_lt_Some).
Qed.

(** The moves of a walk back along a snake start on the diagonal of
    [(x, y)], at or after [(prev_x, prev_y)]. *)
Lemma back_snake_moves fuel : ∀ x y prev_x prev_y,
  Forall (λ mv : Move, prev_x ≤ mv.1.1.1 ∧ prev_y ≤ mv.1.1.2
                       ∧ mv.1.1.1 - mv.1.1.2 = x - y)
         (back_snake fuel x y prev_x prev_y).1.
Proof.
  induction fuel as [|fuel IH]; intros x y prev_x prev_y; simpl; [done|].
  destruct (decide (x > prev_x)) as [Hx|Hx];
    [rewrite (bool_decide_true (x > _)) by done
    |rewrite (bool_decide_false (x > _)) by done]; simpl; [|done].
  destruct (decide (y > prev_y)) as [Hy|Hy];
    [rewrite (bool_decide_true (y > _)) by done
    |rewrite (bool_decide_false (y > _)) by done]; simpl; [|done].
  constructor; [simpl; lia|].
  eapply Forall_impl; [apply IH|]. intros mv. simpl. lia.
Qed.

(** A diagonal within one step of the ones of distance [d] either belongs
    to the distances [d + 1], [d - 1], ... or to [d], [d - 2], ... *)
Lemma diagonal_parity d k :
  - (d + 1) ≤ k ≤ d + 1 →
  (∃ i, 0 ≤ i ≤ d + 1 ∧ k = 2 * i - (d + 1))
  ∨ (∃ i, 0 ≤ i ≤ d ∧ k = 2 * i - d).
Proof.
  intros Hk. destruct (Z.Even_or_Odd (k + d)) as [[i Hi]|[i Hi]].
  - right. exists i. lia.
  - left. exists (i + 1). lia.
Qed.

Section Step.

Variables (d : Z) (v : list Z).

Hypothesis two_lines : 2 ≤ MAX.
Hypothesis before_last : 0 ≤ d < MAX.
Hypothesis snap : snapshot m n d v.

Lemma read_distance j :
  0 ≤ j ≤ d → ∃ x, Py.get v (2 * j - d) = Ok x ∧ 0 ≤ x ∧ 0 ≤ x - (2 * j - d).
Proof.
  intros Hj. destruct snap as (_ & Hf & _).
  destruct (Hf j) as (x & Hx & Hr); [lia|].
  exists x. unfold reach in Hr. split; [done|lia].
Qed.

Lemma read_before j :
  0 ≤ j ≤ d - 1 →
  ∃ x, Py.get v (2 * j - (d - 1)) = Ok x ∧ 0 ≤ x ∧ 0 ≤ x - (2 * j - (d - 1)).
Proof.
  intros Hj. destruct snap as (_ & _ & Hf & _).
  destruct (Hf j) as (x & Hx & Hr); [lia|].
  exists x. unfold reach in Hr. split; [done|lia].
Qed.

(** Beyond the diagonals of distance [d] the array reads -1, also at the
    two indices one step outside [-MAX] and [MAX], which name the entries
    of the diagonals [MAX] and [-MAX]. *)
Lemma read_beyond k :
  - MAX - 1 ≤ k ≤ MAX + 1 → k < - d ∨ d < k → (d ≤ 0 → k ≠ 1) →
  Py.get v k = Ok (-1).
Proof.
  intros Hk Hout Hone. destruct snap as (Hv & _ & _ & Hb & _).
  unfold shaped in Hv.
  destruct (decide (k = MAX + 1)) as [->|Hhi].
  { rewrite <- get_wrap by lia. rewrite Hv.
    replace (MAX + 1 - (2 * MAX + 1)) with (- MAX) by lia.
    apply Hb; lia. }
  destruct (decide (k = - MAX - 1)) as [->|Hlo].
  { replace (- MAX - 1) with (MAX - Py.len v) by lia.
    rewrite get_wrap by lia. apply Hb; lia. }
  apply Hb; [lia|done..].
Qed.

(** The step back from a point on diagonal [k], at most one step outside
    the diagonals of distance [d]: the test of line 70 and the read of
    line 77 succeed, and the point read is an end point of the snapshot,
    or, for the snapshot of distance 0 and diagonal 0, the sentinel. *)
Lemma back_step k :
  - (d + 1) ≤ k ≤ d + 1 →
  ∃ down prev_x,
    goes_down d k v = Ok down
    ∧ Py.get v (if down then k + 1 else k - 1) = Ok prev_x
    ∧ let prev_k := if down then k + 1 else k - 1 in
      (0 ≤ prev_x ∧ 0 ≤ prev_x - prev_k ∧ - d ≤ prev_k ≤ d)
      ∨ (d = 0 ∧ k = 0 ∧ prev_x = 0 ∧ prev_k = 1).
Proof.
  intros Hk. unfold goes_down.
  destruct (diagonal_parity d k Hk) as [(i & Hi & ->)|(i & Hi & ->)].
  - (* a diagonal of the distances d + 1, d - 1, ... *)
    rewrite bool_decide_false by lia. rewrite bool_decide_true by lia.
    destruct (decide (i = 0)) as [->|Hi0].
    { rewrite (read_beyond (2 * 0 - (d + 1) - 1)); [|lia..].
      destruct (read_distance 0) as (x & Hx & Hx0 & Hy0); [lia|].
      replace (2 * 0 - (d + 1) + 1) with (2 * 0 - d) by lia.
      rewrite Hx. simpl. rewrite bool_decide_true by lia.
      exists true, x. split_and!; [done..|]. left. lia. }
    destruct (read_distance (i - 1)) as (xl & Hxl & Hxl0 & Hyl0); [lia|].
    replace (2 * (i - 1) - d) with (2 * i - (d + 1) - 1) in * by lia.
    rewrite Hxl. simpl.
    destruct (decide (i = d + 1)) as [->|Hid].
    { rewrite (read_beyond (2 * (d + 1) - (d + 1) + 1)); [|lia..]. simpl.
      rewrite bool_decide_false by lia.
      exists false, xl. split_and!; [done..|]. left. lia. }
    destruct (read_distance i) as (xr & Hxr & Hxr0 & Hyr0); [lia|].
    replace (2 * i - d) with (2 * i - (d + 1) + 1) in * by lia.
    rewrite Hxr. simpl.
    destruct (bool_decide (xl < xr)).
    + exists true, xr. split_and!; [done..|]. left. lia.
    + exists false, xl. split_and!; [done..|]. left. lia.
  - (* a diagonal of the distances d, d - 2, ... *)
    destruct (decide (i = 0)) as [->|Hi0].
    { rewrite bool_decide_true by lia.
      destruct (decide (d = 0)) as [Hd0|Hd0].
      - destruct snap as (_ & _ & _ & _ & Hs). specialize (Hs Hd0).
        exists true, 0. subst d. split_and!; [done..|]. right. done.
      - destruct (read_before 0) as (x & Hx & Hx0 & Hy0); [lia|].
        replace (2 * 0 - (d - 1)) with (2 * 0 - d + 1) in * by lia.
        exists true, x. split_and!; [done..|]. left. lia. }
    rewrite bool_decide_false by lia.
    destruct (read_before (i - 1)) as (xl & Hxl & Hxl0 & Hyl0); [lia|].
    replace (2 * (i - 1) - (d - 1)) with (2 * i - d - 1) in * by lia.
    destruct (decide (i = d)) as [->|Hid].
    { rewrite bool_decide_false by lia.
      exists false, xl. split_and!; [done..|]. left. lia. }
    rewrite bool_decide_true by lia.
    destruct (read_before i) as (xr & Hxr & Hxr0 & Hyr0); [lia|].
    replace (2 * i - (d - 1)) with (2 * i - d + 1) in * by lia.
    rewrite Hxl, Hxr. simpl.
    destruct (bool_decide (xl < xr)).
    + exists true, xr. split_and!; [done..|]. left. lia.
    + exists false, xl. split_and!; [done..|]. left. lia.
Qed.

End Step.

(** The loop over the trace raises nothing, and every move it yields
    starts at a point with no negative coordinate. *)
Lemma back_loop_ok : ∀ tr d x y,
  2 ≤ MAX → countdown m n d tr → d < MAX →
  (tr ≠ [] → - (d + 1) ≤ x - y ≤ d + 1) →
  ∃ r, back_loop tr x y = Ok r ∧ Forall from_quadrant r.1.
Proof.
  induction tr as [|[d' v] tr IH]; intros d x y Hmax Hcd Hd Hk.
  - simpl. eexists. split; [done|]. simpl. done.
  - assert (d' = d ∧ 0 ≤ d ∧ snapshot m n d v ∧ countdown m n (d - 1) tr)
      as (-> & Hd0 & Hsnap & Hcd') by (by inversion Hcd).
    cbn [back_loop].
    destruct (back_step d v Hmax ltac:(lia) Hsnap (x - y))
      as (down & prev_x & -> & Hget & Hprev); [by apply Hk|].
    cbn [mbind Result_bind]. rewrite Hget. cbn [mbind Result_bind].
    set (prev_k := if down then x - y + 1 else x - y - 1) in *.
    destruct (IH (d - 1) prev_x (prev_x - prev_k)) as (r & -> & Hr);
      [done|done|lia| |].
    { intros Hne. destruct Hprev as [?|(-> & _)]; [lia|].
      inversion Hcd'; subst; [done|lia]. }
    cbn [mbind Result_bind]. eexists. split; [done|]. cbn [fst].
    pose proof (back_snake_moves (Z.to_nat (x - prev_x)) x y
                  prev_x (prev_x - prev_k)) as Hsnake.
    apply Forall_app. split; [|apply Forall_app; split; [|done]].
    + eapply Forall_impl; [exact Hsnake|].
      intros mv (H1 & H2 & H3). unfold from_quadrant.
      destruct Hprev as [?|(-> & Hk0 & -> & _)]; lia.
    + case_bool_decide as Hpos; [|done].
      constructor; [|done]. unfold from_quadrant. simpl.
      destruct Hprev as [?|(-> & _)]; lia.
Qed.

(** The classifier raises nothing on a move that starts at a point with
    no negative coordinate. *)
Lemma classify_quadrant diff mv :
  from_quadrant mv → ∃ diff', Differ.classify a b diff mv = Ok diff'.
Proof.
  destruct mv as [[[prev_x prev_y] x] y]. intros [Hx Hy]. simpl in Hx, Hy.
  unfold Differ.classify.
  assert (∃ a_line, (if bool_decide (prev_x < m)
                     then l ← Py.get a prev_x; Ok (Some l) else Ok None)
                    = Ok a_line) as [a_line ->].
  { case_bool_decide; [|by eexists].
    destruct (get_in_range a prev_x) as (l & -> & _); [lia|]. by eexists. }
  assert (∃ b_line, (if bool_decide (prev_y < n)
                     then l ← Py.get b prev_y; Ok (Some l) else Ok None)
                    = Ok b_line) as [b_line ->].
  { case_bool_decide; [|by eexists].
    destruct (get_in_range b prev_y) as (l & -> & _); [lia|]. by eexists. }
  cbn [mbind Result_bind].
  destruct a_line, b_line; repeat case_bool_decide; by eexists.
Qed.

Lemma classify_all_quadrant mvs : ∀ diff,
  Forall from_quadrant mvs → ∃ es, Differ.classify_all a b diff mvs = Ok es.
Proof.
  induction mvs as [|mv mvs IH]; intros diff Hall; [by eexists|].
  apply Forall_cons in Hall as [Hmv Hall]. cbn [Differ.classify_all].
  destruct (classify_quadrant diff mv Hmv) as (diff' & ->).
  cbn [mbind Result_bind]. by apply IH.
Qed.

(** When one of the two sequences has a line, [myers_git_diff] returns
    an edit list. *)
Lemma myers_git_diff_ok : 1 ≤ MAX → ∃ es, Differ.myers_git_diff a b = Ok es.
Proof.
  intros Hone. destruct (decide (MAX = 1)) as [Hmax|Hmax].
  { (* one line in all: the array has three entries *)
    destruct a as [|la [|]], b as [|lb [|]];
      unfold Py.len in Hmax; simpl in Hmax; try lia; by eexists. }
  destruct (myers_search_ok a b Hone)
    as (trace & st & Hs & Hlen & Hd & Hend & Hk & Hy & Hreach & Hsn).
  unfold Differ.myers_git_diff, myers_diff. rewrite Hs.
  cbn [mbind Result_bind fst]. unfold myers_backtrack.
  destruct (back_loop_ok (reverse (PyIter.enumerate trace))
              (Z.of_nat (length trace) - 1) m n)
    as (r & -> & Hr); [lia|by apply countdown_trace|lia| |].
  { intros _. unfold at_end, reach in *.
    apply andb_true_iff in Hend as [Hx%bool_decide_eq_true Hy'%bool_decide_eq_true].
    lia. }
  cbn [mbind Result_bind]. apply classify_all_quadrant.
  apply Forall_app. split; [done|].
  eapply Forall_impl; [apply back_snake_moves|].
  intros mv (H1 & H2 & _). unfold from_quadrant. done.
Qed.

End Backtrack.

(** ** Diffing a sequence against itself *)

Section Identity.

Import Differ Spec.

Variable a : list Line.

Local Abbreviation m := (Py.len a).

Hypothesis some_line : 1 ≤ m.

Lemma Line_eq_refl l : Line_eq l l = true.
Proof. unfold Line_eq. by rewrite bool_decide_true. Qed.

(** On the main diagonal the snake runs to the end. *)
Lemma snake_same fuel : ∀ x,
  0 ≤ x ≤ m → fuel = Z.to_nat (m - x) → snake a a fuel x x = Ok (m, m).
Proof.
  induction fuel as [|fuel IH]; intros x Hx Hfuel; simpl.
  - do 2 f_equal; lia.
  - rewrite bool_decide_true by lia. simpl.
    destruct (get_in_range a x) as (ax & -> & _); [lia|]. simpl.
    rewrite Line_eq_refl. apply IH; lia.
Qed.

(** The search returns in the round of distance 0, with an empty trace. *)
Lemma myers_search_same : myers_search a a = Ok ([], mkStop 0 0 m m).
Proof.
  unfold myers_search.
  destruct (set_spec (replicate (Z.to_nat (2 * (m + m) + 1)) (-1)) 1 0)
    as (v & -> & Hlen & Hget & _).
  { unfold Py.len at 1 4. rewrite length_replicate. lia. }
  simpl. rewrite range_distances.
  replace (Z.to_nat (m + m + 1)) with (S (Z.to_nat (m + m))) by lia.
  cbn [seq fmap list_fmap for_d]. change (Z.of_nat 0) with 0.
  change (PyIter.range (- 0) (0 + 1) 2) with [0]. cbn [for_k].
  destruct (set_spec v 0 m) as (v' & Hset & _).
  { unfold Py.len. rewrite Hlen, length_replicate. lia. }
  assert (extend a a 0 0 v = Ok (v', m, m)) as ->.
  { unfold extend, start_x, goes_down.
    rewrite bool_decide_true by done. cbn [mbind Result_bind].
    change (0 + 1) with 1. rewrite Hget. cbn [mbind Result_bind].
    change (0 - 0) with 0. rewrite (snake_same _ 0) by lia.
    cbn [mbind Result_bind fst snd]. by rewrite Hset. }
  cbn [mbind Result_bind]. unfold at_end.
  rewrite !bool_decide_true by lia. done.
Qed.

(** The final loop of the backtracker walks the diagonal from [(x, x)]
    to the origin, and the classifier turns each of its moves into an
    "equal" edit put in front of the ones made so far. *)
Lemma classify_diagonal fuel : ∀ diff,
  (fuel ≤ length a)%nat →
  classify_all a a diff
    (back_snake fuel (Z.of_nat fuel) (Z.of_nat fuel) 0 0).1
  = Ok ((same <$> take fuel a) ++ diff).
Proof.
  induction fuel as [|fuel IH]; intros diff Hfuel; [done|].
  cbn [back_snake]. rewrite !bool_decide_true by lia.
  cbn [andb fst classify_all classify].
  replace (Z.of_nat (S fuel) - 1) with (Z.of_nat fuel) by lia.
  destruct (get_in_range a (Z.of_nat fuel)) as (l & Hget & Hl).
  { unfold Py.len. lia. }
  rewrite Nat2Z.id in Hl.
  rewrite (bool_decide_true (_ < _)) by (unfold Py.len; lia).
  rewrite Hget. cbn [mbind Result_bind].
  rewrite (bool_decide_false (_ = _)) by lia.
  cbn [mbind Result_bind]. rewrite IH by lia.
  rewrite (take_S_r _ _ _ Hl), fmap_app, <- app_assoc. done.
Qed.

Lemma myers_git_diff_same : myers_git_diff a a = Ok (same <$> a).
Proof.
  unfold myers_git_diff, myers_diff. rewrite myers_search_same.
  cbn [mbind Result_bind fst]. unfold myers_backtrack.
  cbn [PyIter.enumerate imap reverse rev_append back_loop mbind Result_bind
       fst snd app].
  replace m with (Z.of_nat (Z.to_nat m)) at 2 3 by lia.
  rewrite classify_diagonal by (unfold Py.len; lia).
  rewrite app_nil_r, take_ge by (unfold Py.len; lia). done.
Qed.

End Identity.

(** A list of "equal" edits has no location to print. *)
Lemma diff_locs_equal (es : list Edit) :
  Forall (λ e, edit_type e = equal) es → Differ.diff_locs es = [].
Proof.
  unfold Differ.diff_locs, PyIter.enumerate.
  generalize Z.of_nat. intros g Hall. revert g.
  induction Hall as [|e es He _ IH]; intros g; [done|].
  cbn [imap omap list_omap snd]. rewrite He. apply (IH (g ∘ S)).
Qed.

Lemma print_diff_same (a : list Line) :
  Render.print_diff (Spec.same <$> a) = ([], None).
Proof.
  unfold Render.print_diff. rewrite diff_locs_equal; [done|].
  apply Forall_fmap, Forall_true. done.
Qed.

(** X6.  Diffing a sequence that has a line against itself gives one
    "equal" edit per line, which pairs the line with itself, and nothing
    is printed for them. *)
Theorem diff_same_lines (a : list Line) :
  a ≠ [] →
  Differ.myers_git_diff a a = Ok (Spec.same <$> a)
  ∧ Render.print_diff (Spec.same <$> a) = ([], None).
Proof.
  intros Ha. split; [|apply print_diff_same].
  apply myers_git_diff_same. destruct a; [done|].
  unfold Py.len. simpl. lia.
Qed.

(** X7.  For two documents with the same lines, at least one, [diff]
    prints the three heading lines and nothing else, and raises
    nothing. *)
Theorem diff_same_documents (doc1 doc2 : Document) :
  content doc1 = content doc2 → content doc1 ≠ [] →
  Render.diff doc1 doc2
  = (["Difference between:"; "a/ " +:+ filepath doc1; "b/ " +:+ filepath doc2],
     None).
Proof.
  intros Heq Hne. unfold Render.diff.
  replace (lines doc2) with (lines doc1) by (unfold lines; by rewrite Heq).
  rewrite myers_git_diff_same, print_diff_same; [done|].
  unfold lines, Py.len. rewrite length_imap.
  destruct (content doc1); [done|simpl; lia].
Qed.

(** ** The classifier keeps the moves with both lines only *)

Section Classifier.

Import Differ Spec.

Variables a b : list Line.

Lemma classify_both diff mv diff' :
  classify a b diff mv = Ok diff' →
  Forall (both_lines a b) diff → Forall (both_lines a b) diff'.
Proof.
  destruct mv as [[[prev_x prev_y] x] y]. unfold classify.
  intros H Hall.
  apply bind_Ok in H as (a_line & Ha & H).
  apply bind_Ok in H as (b_line & Hb & H).
  destruct a_line as [la|]; [|by injection H as <-].
  destruct b_line as [lb|]; [|by injection H as <-].
  destruct (decide (prev_x < Py.len a)) as [Hx|Hx];
    [rewrite bool_decide_true in Ha by done
    |rewrite bool_decide_false in Ha by done; done].
  destruct (decide (prev_y < Py.len b)) as [Hy|Hy];
    [rewrite bool_decide_true in Hb by done
    |rewrite bool_decide_false in Hb by done; done].
  apply bind_Ok in Ha as (la' & Ha & [= ->]).
  apply bind_Ok in Hb as (lb' & Hb & [= ->]).
  assert (∀ t, both_lines a b (mkEdit t (Some la) (Some lb))) as Hnew.
  { intros t. exists prev_x, prev_y, la, lb. simpl. done. }
  repeat case_bool_decide; injection H as <-; by constructor.
Qed.

Lemma classify_all_both mvs : ∀ diff diff',
  classify_all a b diff mvs = Ok diff' →
  Forall (both_lines a b) diff → Forall (both_lines a b) diff'.
Proof.
  induction mvs as [|mv mvs IH]; simpl; intros diff diff'.
  - intros [= <-]. done.
  - intros H Hall. apply bind_Ok in H as (d1 & Hc & H).
    eapply IH; [done|]. by eapply classify_both.
Qed.

Lemma myers_git_diff_both es :
  myers_git_diff a b = Ok es → Forall (both_lines a b) es.
Proof.
  unfold myers_git_diff. intros H.
  apply bind_Ok in H as (trace & _ & H).
  apply bind_Ok in H as (mvs & _ & H).
  eapply classify_all_both; [done|constructor].
Qed.

End Classifier.

(** With an empty old sequence no move has an old line: whatever moves
    the classifier is given, it adds no edit (or stops at an index out of
    range). *)
Lemma classify_all_empty_old (b : list Line) (mvs : list Move) :
  ∀ diff, Differ.classify_all [] b diff mvs = Ok diff
          ∨ Differ.classify_all [] b diff mvs = Raise IndexError.
Proof.
  induction mvs as [|[[[prev_x prev_y] x] y] mvs IH]; intros diff; [by left|].
  cbn [Differ.classify_all Differ.classify].
  destruct (decide (prev_x < Py.len (@nil Line))) as [Hx|Hx].
  - rewrite (bool_decide_true (prev_x < _)) by done.
    assert (Py.get (@nil Line) prev_x = Raise IndexError) as ->.
    { unfold Py.get, Py.index, Py.len in *. simpl in *.
      by rewrite !decide_False by lia. }
    by right.
  - rewrite (bool_decide_false (prev_x < _)) by done.
    cbn [mbind Result_bind].
    destruct (bool_decide (prev_y < Py.len b)).
    + destruct (Py.get b prev_y) as [lb|e] eqn:Hb; cbn [mbind Result_bind].
      * apply IH.
      * right. by apply get_raise in Hb as ->.
    + cbn [mbind Result_bind]. apply IH.
Qed.

(** ** Printing edits that carry both lines *)

Section Printing.

Import Differ Render Spec.

Lemma both_lines_has_lines a b e : both_lines a b e → has_lines e.
Proof.
  intros (i & j & la & lb & _ & _ & _ & _ & Ho & Hn).
  split; [rewrite Ho | rewrite Hn]; done.
Qed.

Lemma Edit_str_has_lines e : has_lines e → ∃ s, Edit_str e = Ok s.
Proof.
  intros [[lo Ho] [ln Hn]]. unfold Edit_str. rewrite Ho, Hn.
  destruct (edit_type e); simpl; eauto.
Qed.

Lemma print_edits_has_lines es :
  Forall has_lines es → (print_edits es).2 = None.
Proof.
  induction 1 as [|e es He _ IH]; simpl; [done|].
  destruct (Edit_str_has_lines e He) as [s ->]. simpl. done.
Qed.

Lemma header_has_lines w :
  Forall has_lines w → header w ≠ Raise AttributeError.
Proof.
  intros Hall. unfold header.
  destruct (Py.get w 0) as [e|x] eqn:Hget; simpl;
    [|by apply get_raise in Hget as ->].
  apply get_elem_of in Hget.
  rewrite Forall_forall in Hall.
  destruct (Hall e Hget) as [[lo ->] [ln ->]]. simpl. done.
Qed.

Lemma window_Forall (P : Edit → Prop) diff c :
  Forall P diff → Forall P (window diff c).
Proof.
  intros H. unfold window, Py.slice. by apply Forall_take, Forall_drop.
Qed.

Lemma print_chunk_has_lines diff c :
  Forall has_lines diff → (print_chunk diff c).2 ≠ Some AttributeError.
Proof.
  intros Hall. unfold print_chunk.
  pose proof (window_Forall _ diff c Hall) as Hw.
  pose proof (header_has_lines _ Hw) as Hh.
  pose proof (print_edits_has_lines _ Hw) as He.
  destruct (header (window diff c)) as [h|x]; simpl.
  - destruct (print_edits (window diff c)) as [out r]. simpl in He.
    subst r. simpl. done.
  - intros [= ->]. done.
Qed.

Lemma print_chunks_has_lines diff cs :
  Forall has_lines diff → (print_chunks diff cs).2 ≠ Some AttributeError.
Proof.
  intros Hall. induction cs as [|c cs IH]; simpl; [done|].
  pose proof (print_chunk_has_lines diff c Hall) as Hc.
  destruct (print_chunk diff c) as [out [x|]]; simpl in *; done.
Qed.

End Printing.

(** ** The locations of the edits to print *)

Section Locations.

Import Differ.

(** The locations are positions of the edit list, in increasing order. *)
Lemma diff_locs_enum (es : list Edit) : ∀ g : nat → Z,
  (∀ i j, (i < j)%nat → g i < g j) →
  let locs := omap (λ p : Z * Edit,
                      match edit_type p.2 with equal => None | _ => Some p.1 end)
                   (imap (λ i x, (g i, x)) es) in
  StronglySorted Z.lt locs
  ∧ Forall (λ l, ∃ i, (i < length es)%nat ∧ l = g i) locs.
Proof.
  induction es as [|e es IH]; intros g Hg; [by split; constructor|].
  destruct (IH (g ∘ S)) as [Hsort Hall].
  { intros i j Hij. apply Hg. lia. }
  assert (Forall (λ l, ∃ i, (i < length (e :: es))%nat ∧ l = g i)
            (omap (λ p : Z * Edit,
                     match edit_type p.2 with equal => None | _ => Some p.1 end)
                  (imap (λ i x, ((g ∘ S) i, x)) es))) as Hall'.
  { eapply Forall_impl; [exact Hall|]. intros l (i & Hi & ->).
    exists (S i). simpl. split; [lia|done]. }
  assert (Forall (Z.lt (g 0%nat))
            (omap (λ p : Z * Edit,
                     match edit_type p.2 with equal => None | _ => Some p.1 end)
                  (imap (λ i x, ((g ∘ S) i, x)) es))) as Hlt.
  { eapply Forall_impl; [exact Hall|]. intros l (i & Hi & ->).
    apply Hg. lia. }
  cbn [imap omap list_omap snd fst].
  destruct (edit_type e); cbn [snd fst].
  - split; [by constructor|]. constructor; [|done].
    exists 0%nat. simpl. split; [lia|done].
  - split; [by constructor|]. constructor; [|done].
    exists 0%nat. simpl. split; [lia|done].
  - done.
Qed.

Lemma diff_locs_sorted (es : list Edit) :
  StronglySorted Z.lt (diff_locs es)
  ∧ Forall (λ l, 0 ≤ l < Py.len es) (diff_locs es).
Proof.
  destruct (diff_locs_enum es Z.of_nat) as [Hsort Hall]; [lia|].
  split; [done|]. eapply Forall_impl; [exact Hall|].
  intros l (i & Hi & ->). unfold Py.len. lia.
Qed.

End Locations.

(** ** The chunk loop *)

Section Chunks.

Import Differ Grouping.

Lemma group_more s p l l' rest :
  group s p (l :: l' :: rest)
  = if bool_decide (l - p ≤ BUFFER) then group s l (l' :: rest)
    else (s, p) :: group l l (l' :: rest).
Proof. reflexivity. Qed.

(** The loop over the locations after the first computes [group]: [g]
    numbers the locations, and only the last one has the number [last]. *)
Lemma fold_group (last : Z) : ∀ rest (g : nat → Z) cs s p,
  (∀ i, (i < length rest)%nat → g i = last ↔ S i = length rest) →
  chunk_locs (foldl (chunk_step last) (mkChunker cs (Some (s, p)))
                    (imap (λ i x, (g i, x)) rest))
  = cs ++ group s p rest.
Proof.
  induction rest as [|l rest IH]; intros g cs s p Hg.
  - simpl. by rewrite app_nil_r.
  - cbn [imap foldl]. unfold chunk_step at 2. cbn [open_chunk chunk_locs].
    destruct rest as [|l' rest].
    + rewrite (bool_decide_false (g 0%nat ≠ last)); last first.
      { intros Hne. apply Hne, Hg; simpl; lia. }
      rewrite andb_false_r. done.
    + rewrite (bool_decide_true (g 0%nat ≠ last)); last first.
      { intros Heq. apply Hg in Heq; simpl in *; lia. }
      rewrite andb_true_r. rewrite group_more.
      destruct (bool_decide (l - p ≤ BUFFER)).
      * apply (IH (g ∘ S)). intros i Hi. unfold compose.
        rewrite Hg by (simpl in *; lia). simpl. lia.
      * rewrite (IH (g ∘ S)).
        { by rewrite <- app_assoc. }
        intros i Hi. unfold compose.
        rewrite Hg by (simpl in *; lia). simpl. lia.
Qed.

(** For two locations or more the chunks are [group] from the first. *)
Lemma chunks_group l0 l1 rest :
  chunks (l0 :: l1 :: rest) = group l0 l0 (l1 :: rest).
Proof.
  unfold chunks. rewrite bool_decide_true; last first.
  { unfold Py.len. simpl. lia. }
  unfold PyIter.enumerate. cbn [imap foldl].
  unfold chunk_step at 2. cbn [open_chunk chunk_locs].
  apply (fold_group _ (l1 :: rest) (Z.of_nat ∘ S) [] l0 l0).
  intros i Hi. unfold compose, Py.len. simpl in *. lia.
Qed.

(** In a list of gapped chunks every chunk after the first starts more
    than BUFFER after the end of the first. *)
Lemma gapped_after s e cs :
  gapped ((s, e) :: cs) → Forall (λ c, e + BUFFER < c.1) cs.
Proof.
  revert s e. induction cs as [|[s' e'] cs IH]; intros s e Hg; [done|].
  inversion Hg as [| |? ? ? ? ? Hse Hgap Hrest]; subst.
  constructor; [done|].
  eapply Forall_impl; [by eapply IH|].
  intros c Hc. simpl in *.
  assert (s' ≤ e') by (inversion Hrest; done). unfold BUFFER in *. lia.
Qed.

Lemma gapped_le cs : gapped cs → Forall (λ c, c.1 ≤ c.2) cs.
Proof.
  induction 1 as [|s e Hse|s e s' e' cs Hse Hgap Hrest IH].
  - constructor.
  - by constructor.
  - by constructor.
Qed.

Lemma filter_none {A} (P : A → Prop) `{∀ x, Decision (P x)} (l : list A) :
  Forall (λ x, ¬ P x) l → filter P l = [].
Proof.
  induction 1 as [|x l Hx _ IH]; [done|].
  by rewrite filter_cons_False.
Qed.

(** A position inside one of the gapped chunks is near that chunk only. *)
Lemma gapped_near_once cs i :
  gapped cs → (∃ c, c ∈ cs ∧ inside c i) →
  length (filter (λ c, near c i) cs) = 1%nat.
Proof.
  induction 1 as [|s e Hse|s e s' e' cs Hse Hgap Hrest IH];
    intros (c & Hc & Hin).
  - by apply elem_of_nil in Hc.
  - apply list_elem_of_singleton in Hc as ->.
    rewrite filter_cons_True; [done|].
    unfold inside, near, BUFFER in *. simpl in *. lia.
  - pose proof (gapped_after _ _ _ (gapped_cons _ _ _ _ _ Hse Hgap Hrest))
      as Hafter.
    apply elem_of_cons in Hc as [->|Hc].
    + (* inside the first chunk: the later ones start too far to the right *)
      rewrite filter_cons_True; last first.
      { unfold inside, near, BUFFER in *. simpl in *. lia. }
      rewrite filter_none; [done|].
      eapply Forall_impl; [exact Hafter|]. intros c' Hc'.
      unfold inside, near, BUFFER in *. simpl in *. lia.
    + (* inside a later chunk: the first one ends too far to the left *)
      rewrite filter_cons_False; [by apply IH; exists c|].
      rewrite Forall_forall in Hafter. specialize (Hafter c Hc).
      unfold inside, near, BUFFER in *. simpl in *. lia.
Qed.

(** [group] makes gapped chunks; the first begins at the open start and
    ends at or after the previous location; every location still to come
    is inside one of them, and their ends are locations. *)
Lemma group_spec : ∀ rest s p,
  s ≤ p → StronglySorted Z.lt (p :: rest) → rest ≠ [] →
  ∃ e cs, group s p rest = (s, e) :: cs ∧ p ≤ e
          ∧ gapped ((s, e) :: cs)
          ∧ (∀ l, l ∈ rest → ∃ c, c ∈ (s, e) :: cs ∧ inside c l)
          ∧ Forall (λ c, (c.1 = s ∨ c.1 ∈ rest) ∧ c.2 ∈ p :: rest)
                   ((s, e) :: cs).
Proof.
  induction rest as [|l rest IH]; intros s p Hsp Hsort Hne; [done|].
  apply StronglySorted_inv in Hsort as [Hsort Hp].
  apply Forall_cons in Hp as [Hpl Hp].
  destruct rest as [|l' rest].
  - exists l, []. cbn [group]. split_and!; [done|lia|constructor; lia| |].
    + intros l0 Hl0. apply list_elem_of_singleton in Hl0 as ->.
      exists (s, l). split; [left|unfold inside; simpl; lia].
    + constructor; [|done]. simpl. split; [by left|]. right. left.
  - rewrite group_more. destruct (decide (l - p ≤ BUFFER)) as [Hgap|Hgap].
    + rewrite bool_decide_true by done.
      destruct (IH s l) as (e & cs & -> & Hle & Hg & Hcov & Hends);
        [lia|done|done|].
      exists e, cs. split_and!; [done|lia|done| |].
      * intros l0 Hl0. apply elem_of_cons in Hl0 as [->|Hl0]; [|by apply Hcov].
        exists (s, e). split; [left|unfold inside; simpl; lia].
      * eapply Forall_impl; [exact Hends|]. intros c [Hc1 Hc2]. split.
        -- destruct Hc1 as [->|Hc1]; [by left|]. right. by right.
        -- by right.
    + rewrite bool_decide_false by done.
      destruct (IH l l) as (e & cs & -> & Hle & Hg & Hcov & Hends);
        [lia|done|done|].
      exists p, ((l, e) :: cs). split_and!; [done|lia| | |].
      * constructor; [done|lia|done].
      * intros l0 Hl0. apply elem_of_cons in Hl0 as [->|Hl0].
        -- exists (l, e). split; [right; left|unfold inside; simpl; lia].
        -- destruct (Hcov l0 Hl0) as (c & Hc & Hin).
           exists c. split; [by right|done].
      * constructor; [simpl; split; [by left|left]|].
        eapply Forall_impl; [exact Hends|]. intros c [Hc1 Hc2]. split.
        -- right. destruct Hc1 as [->|Hc1]; [left|by right].
        -- by right.
Qed.

End Chunks.

(** ** Chunks and windows of an edit list *)

Section Windows.

Import Differ Grouping Spec.

Variable es : list Edit.

(** Every chunk runs from a position of the edit list to a position of the
    edit list that is not before it. *)
Lemma chunks_in_range :
  Forall (λ c, 0 ≤ c.1 ∧ c.1 ≤ c.2 < Py.len es) (chunks (diff_locs es)).
Proof.
  destruct (diff_locs_sorted es) as [Hsort Hall].
  destruct (diff_locs es) as [|l0 [|l1 rest]] eqn:Hlocs.
  - done.
  - apply Forall_cons in Hall as [Hl0 _].
    unfold chunks. cbn. constructor; [simpl; lia|done].
  - rewrite chunks_group.
    destruct (group_spec (l1 :: rest) l0 l0) as (e & cs & -> & _ & Hg & _ & Hends);
      [lia|done|done|].
    apply gapped_le in Hg.
    rewrite Forall_forall in Hall.
    apply Forall_forall. intros c Hc.
    rewrite Forall_forall in Hg. specialize (Hg c Hc).
    rewrite Forall_forall in Hends. destruct (Hends c Hc) as [H1 H2].
    assert (c.1 ∈ l0 :: l1 :: rest) as H1'.
    { destruct H1 as [->|H1]; [left|by right]. }
    apply Hall in H1'. apply Hall in H2. lia.
Qed.

(** With two locations or more, every location is in the window of
    exactly one chunk. *)
Lemma locations_covered_once i :
  (2 ≤ length (diff_locs es))%nat → i ∈ diff_locs es →
  length (hunks_covering es i) = 1%nat.
Proof.
  intros Hlen Hi. unfold hunks_covering.
  destruct (diff_locs_sorted es) as [Hsort Hall].
  destruct (diff_locs es) as [|l0 [|l1 rest]] eqn:Hlocs; [simpl in Hlen; lia..|].
  rewrite Forall_forall in Hall. specialize (Hall i Hi).
  rewrite chunks_group.
  destruct (group_spec (l1 :: rest) l0 l0) as (e & cs & -> & Hle & Hg & Hcov & _);
    [lia|done|done|].
  rewrite (list_filter_iff _ (λ c, near c i)); last first.
  { intros c. unfold covers, near, BUFFER. lia. }
  apply gapped_near_once; [done|].
  apply elem_of_cons in Hi as [->|Hi]; [|by apply Hcov].
  exists (l0, e). split; [left|]. unfold inside. simpl. lia.
Qed.

(** The window of a chunk within the list has a first edit. *)
Lemma window_first c :
  0 ≤ c.1 ∧ c.1 ≤ c.2 < Py.len es → ∃ e, Py.get (window es c) 0 = Ok e.
Proof.
  intros Hc.
  destruct (get_in_range (window es c) 0) as (e & He & _); [|by exists e].
  unfold window, Py.slice, Py.len, BUFFER in *.
  rewrite length_take, length_drop. lia.
Qed.

End Windows.

Section PrintingAll.

Import Differ Render Spec.

Lemma header_returns w e :
  Forall has_lines w → Py.get w 0 = Ok e → ∃ h, header w = Ok h.
Proof.
  intros Hall Hget. unfold header. rewrite Hget. cbn [mbind Result_bind].
  apply get_elem_of in Hget. rewrite Forall_forall in Hall.
  destruct (Hall e Hget) as [[lo ->] [ln ->]]. simpl. eauto.
Qed.

Lemma print_chunks_returns es cs :
  Forall has_lines es → Forall (λ c, 0 ≤ c.1 ∧ c.1 ≤ c.2 < Py.len es) cs →
  (print_chunks es cs).2 = None.
Proof.
  intros Hall. induction 1 as [|c cs Hc _ IH]; [done|].
  cbn [print_chunks]. unfold print_chunk.
  pose proof (window_Forall _ es c Hall) as Hw.
  destruct (window_first es c Hc) as (e & He).
  destruct (header_returns _ _ Hw He) as (h & ->).
  pose proof (print_edits_has_lines _ Hw) as Hp.
  destruct (print_edits (window es c)) as [out r].
  simpl in Hp. subst r. simpl. done.
Qed.

(** Printing an edit list whose edits carry both lines raises nothing. *)
Lemma print_diff_returns es :
  Forall has_lines es → (print_diff es).2 = None.
Proof.
  intros Hall. apply print_chunks_returns; [done|]. apply chunks_in_range.
Qed.

End PrintingAll.

(** The locations are the positions of the edits that are not "equal". *)
Lemma diff_locs_elem (es : list Edit) (l : Z) :
  l ∈ Differ.diff_locs es
  ↔ ∃ i e, l = Z.of_nat i ∧ es !! i = Some e ∧ edit_type e ≠ equal.
Proof.
  unfold Differ.diff_locs, PyIter.enumerate. rewrite list_elem_of_omap. split.
  - intros ([n e] & Hin & Hf).
    apply (elem_of_lookup_imap (λ i x, (Z.of_nat i, x))) in Hin
      as (i & e' & [= -> ->] & Hi).
    exists i, e'. simpl in Hf. destruct (edit_type e'); naive_solver.
  - intros (i & e & -> & Hi & Hne). exists (Z.of_nat i, e). split.
    + by apply (elem_of_lookup_imap_2 (λ i x, (Z.of_nat i, x))).
    + simpl. by destruct (edit_type e).
Qed.

Lemma diff_locs_length (es : list Edit) :
  length (Differ.diff_locs es) = length (Spec.non_equal es).
Proof.
  unfold Differ.diff_locs, PyIter.enumerate, Spec.non_equal.
  generalize Z.of_nat. induction es as [|e es IH]; intros g; [done|].
  cbn [imap omap list_omap snd fst]. specialize (IH (g ∘ S)).
  destruct (edit_type e) eqn:He.
  - rewrite filter_cons_True by (by rewrite He). simpl. by f_equal.
  - rewrite filter_cons_True by (by rewrite He). simpl. by f_equal.
  - rewrite filter_cons_False by (rewrite He; naive_solver). done.
Qed.

(** X9.  When the edit list has two or more edits that are not "equal",
    each of them lies in the window printed for exactly one chunk. *)
Theorem changes_covered_once (es : list Edit) (i : nat) (e : Edit) :
  (2 ≤ length (Spec.non_equal es))%nat →
  es !! i = Some e → edit_type e ≠ equal →
  length (Spec.hunks_covering es (Z.of_nat i)) = 1%nat.
Proof.
  intros Hlen Hi He. apply locations_covered_once.
  - by rewrite diff_locs_length.
  - apply diff_locs_elem. by exists i, e.
Qed.

(** X10.  When the edit list has a single edit that is not "equal", the
    chunk is (0, 0) wherever the edit is, and the edit lies in its window only
    if it is among the first BUFFER + 1 edits. *)
Theorem single_change_covered (es : list Edit) (i : Z) :
  Differ.diff_locs es = [i] →
  Differ.chunks (Differ.diff_locs es) = [(0, 0)]
  ∧ (length (Spec.hunks_covering es i) = 1%nat ↔ i ≤ Differ.BUFFER).
Proof.
  intros Hlocs. unfold Spec.hunks_covering. rewrite Hlocs.
  destruct (diff_locs_sorted es) as [_ Hall]. rewrite Hlocs in Hall.
  apply Forall_cons in Hall as [Hi _].
  split; [done|]. change (Differ.chunks [i]) with [(0, 0)].
  rewrite filter_singleton; [|exact []].
  unfold Spec.covers, Differ.BUFFER in *.
  case_decide; simpl in *; split; intros; try done; lia.
Qed.

(** ** The edits of [myers_git_diff] *)

(** C10.  Every edit that [myers_git_diff] returns was built from a line
    of A read at an index below len(A) and a line of B read at an index
    below len(B), so both its old and its new line are present; each such
    edit prints, and printing the chunks of the list (the header reads
    [to_print[0].old.num] and [to_print[0].new.num]) ends without an
    exception: no absent line is dereferenced, and every window has a
    first edit. *)
Theorem edits_carry_both_lines (a b : list Line) (es : list Edit) :
  Differ.myers_git_diff a b = Ok es →
  Forall (Spec.both_lines a b) es
  ∧ Forall (λ e, ∃ s, Edit_str e = Ok s) es
  ∧ (Render.print_diff es).2 = None.
Proof.
  intros H. apply myers_git_diff_both in H.
  assert (Forall Spec.has_lines es) as Hl.
  { eapply Forall_impl; [done|]. apply both_lines_has_lines. }
  split_and!; [done| |].
  - eapply Forall_impl; [exact Hl|]. apply Edit_str_has_lines.
  - by apply print_diff_returns.
Qed.

Lemma edits_carry_both_lines_witness :
  let a := Spec.numbered Inputs.abc in
  let b := Spec.numbered Inputs.axc in
  ∃ es, Differ.myers_git_diff a b = Ok es
        ∧ Forall (Spec.both_lines a b) es
        ∧ Forall (λ e, ∃ s, Edit_str e = Ok s) es
        ∧ (Render.print_diff es).2 = None.
Proof.
  eexists. split; [vm_compute; reflexivity|].
  apply edits_carry_both_lines. vm_compute. reflexivity.
Defined.

(** ** The distance search on the scenarios *)

(** C1 (the code departs from the claim).  With A = [p, q, r] and B = [p]
    the search returns at distance 2 on diagonal -2 with (x, y) = (1, 3),
    which is not the sink (3, 1): line 51 compares x with len(B) and y
    with len(A).  No diagonal had reached the sink before: the snapshots
    hold 2 as the furthest x.  With A = [p, q] and B = [q] diagonal 1
    reaches the sink (2, 1) at distance 1 (the second snapshot holds
    v[1] = 2), and the search goes on to distance 2 and stops at (2, 2). *)
Theorem search_end_test_swapped :
  myers_search (Spec.numbered ["p"; "q"; "r"]) (Spec.numbered ["p"])
    = Ok ([[1; 0; -1; -1; -1; -1; -1; -1; -1];
           [1; 2; -1; -1; -1; -1; -1; -1; 1]],
          mkStop 2 (-2) 1 3)
  ∧ myers_search (Spec.numbered ["p"; "q"]) (Spec.numbered ["q"])
    = Ok ([[0; 0; -1; -1; -1; -1; -1];
           [0; 2; -1; -1; -1; -1; 0]],
          mkStop 2 0 2 2).
Proof. split; vm_compute; reflexivity. Qed.

(** C9 (the code departs from the claim).  For two empty sequences the
    array has one entry and the assignment [v[1] = 0] of line 29 raises
    IndexError: [myers_diff] does not return a trace. *)
Theorem myers_diff_empty_raises : myers_diff [] [] = Raise IndexError.
Proof. reflexivity. Qed.

(** For every other input [myers_diff] returns a trace, of at most
    len(A) + len(B) snapshots: no index is out of range and the exception
    of line 54 is not reached. *)
Theorem myers_diff_returns (a b : list Line) :
  a ≠ [] ∨ b ≠ [] →
  ∃ trace, myers_diff a b = Ok trace
           ∧ Py.len trace ≤ Py.len a + Py.len b.
Proof.
  intros Hne.
  destruct (myers_search_ok a b) as (trace & st & Hs & Hlen & Hd & _).
  { unfold Py.len. destruct Hne, a, b; simpl; done || lia. }
  exists trace. unfold myers_diff. rewrite Hs. split; [done|].
  unfold Py.len at 1. lia.
Qed.

(** X1.  [myers_diff] never raises the exception of line 54, and it
    raises IndexError for two empty sequences only. *)
Theorem myers_diff_raises_iff (a b : list Line) :
  myers_diff a b ≠ Raise SESTooLong
  ∧ (myers_diff a b = Raise IndexError ↔ a = [] ∧ b = []).
Proof.
  destruct (decide (a = [] ∧ b = [])) as [[-> ->]|Hne].
  - split; [done|]. split; done.
  - destruct (myers_diff_returns a b) as (trace & -> & _).
    { destruct a, b; naive_solver. }
    split; [done|]. split; [done|]. intros H. by destruct Hne.
Qed.

(** ** The edit script on the scenarios *)

(** C2 (the code departs from the claim).  For A = [a, b, c] and
    B = [a, x, c] the edit list has one edit that is not "equal", the
    insert of x; the distance is 2 (delete b, insert x). *)
Theorem edit_count_below_distance :
  let a := Spec.numbered Inputs.abc in
  let b := Spec.numbered Inputs.axc in
  ∃ es, Differ.myers_git_diff a b = Ok es
        ∧ Spec.shown <$> es
          = [(equal, Some "a"); (insert, Some "x"); (equal, Some "c")]
        ∧ length (Spec.non_equal es) = 1%nat
        ∧ Spec.dp_edit_distance a b = 2%nat.
Proof. eexists. split; [vm_compute; reflexivity|]. by vm_compute. Qed.

(** C3 (the code departs from the claim).  For the same input the old
    lines of the edits that are not inserts are a and c: line b of A is
    missing. *)
Theorem old_side_misses_a_line :
  let a := Spec.numbered Inputs.abc in
  let b := Spec.numbered Inputs.axc in
  ∃ es, Differ.myers_git_diff a b = Ok es
        ∧ Spec.old_side es = [Some (mkLine 0 "a"); Some (mkLine 2 "c")]
        ∧ Spec.old_side es ≠ Some <$> a.
Proof. eexists. split; [vm_compute; reflexivity|]. by vm_compute. Qed.

(** C4 (the code departs from the claim).  For A = [] and B = [a] the
    search returns in the round of distance 1, at (1, 0), with the
    snapshot of round 0 as the whole trace; the walk back pairs that
    snapshot with d = 0 and yields no move, so no edit is made: the
    edit list is empty, where the distance is 1 (insert a), and [diff]
    prints the three heading lines and no chunk. *)
Theorem empty_against_a_no_insert (path1 path2 : string) :
  let a := Spec.numbered [] in
  let b := Spec.numbered ["a"] in
  myers_search a b = Ok ([[0; 0; -1]], mkStop 1 1 1 0)
  ∧ myers_backtrack [[0; 0; -1]] a b = Ok []
  ∧ Differ.myers_git_diff a b = Ok []
  ∧ Spec.dp_edit_distance a b = 1%nat
  ∧ Render.diff (mkDocument path1 []) (mkDocument path2 ["a"])
    = (["Difference between:"; "a/ " +:+ path1; "b/ " +:+ path2], None).
Proof. split_and!; reflexivity. Qed.

(** C7 (the code departs from the claim).  For A = [a, b, c] and
    B = [a, x, c] the walk back yields three moves, the edit list is
    equal a, insert x, equal c, with no delete of b, and what is printed
    is one chunk with the header [@@   -0,2 +0,3   @@] and three lines:
    for each edit the colour code of its type, the one-character prefix,
    four spaces, the text of the line, four spaces and the code that
    ends the colour. *)
Theorem abc_axc_prints_no_delete :
  let doc1 := mkDocument "old" Inputs.abc in
  let doc2 := mkDocument "new" Inputs.axc in
  (∃ trace, myers_diff (lines doc1) (lines doc2) = Ok trace
            ∧ myers_backtrack trace (lines doc1) (lines doc2)
              = Ok [(2, 2, 3, 3); (2, 1, 2, 2); (0, 0, 1, 1)])
  ∧ (∃ es, Differ.myers_git_diff (lines doc1) (lines doc2) = Ok es
           ∧ Spec.shown <$> es
             = [(equal, Some "a"); (insert, Some "x"); (equal, Some "c")]
           ∧ Differ.chunks (Differ.diff_locs es) = [(0, 0)])
  ∧ Render.diff doc1 doc2
    = (["Difference between:"; "a/ old"; "b/ new";
        "@@   -0,2 +0,3   @@";
        "     a    " +:+ ESC +:+ "[0m";
        ESC +:+ "[92m+    x    " +:+ ESC +:+ "[0m";
        "     c    " +:+ ESC +:+ "[0m";
        ""], None).
Proof.
  split_and!.
  - eexists. split; [vm_compute; reflexivity|]. by vm_compute.
  - eexists. split; [vm_compute; reflexivity|]. by vm_compute.
  - by vm_compute.
Qed.

(** ** The chunks on the scenarios *)

(** C5 (the code departs from the claim).  The two documents differ in
    their eighth line; the edit list has its one edit that is not "equal"
    at position 7, the chunk for a single location is (0, 0), its window
    ends before position 7, and what is printed is the first seven common
    lines. *)
Theorem single_change_outside_window :
  let doc1 := mkDocument "old" Inputs.late_old in
  let doc2 := mkDocument "new" Inputs.late_new in
  (∃ es, Differ.myers_git_diff (lines doc1) (lines doc2) = Ok es
         ∧ Differ.diff_locs es = [7]
         ∧ Differ.chunks (Differ.diff_locs es) = [(0, 0)]
         ∧ Spec.hunks_covering es 7 = [])
  ∧ Render.diff doc1 doc2
    = (["Difference between:"; "a/ old"; "b/ new";
        "@@   -0,7 +0,7   @@";
        "     l0    " +:+ ESC +:+ "[0m";
        "     l1    " +:+ ESC +:+ "[0m";
        "     l2    " +:+ ESC +:+ "[0m";
        "     l3    " +:+ ESC +:+ "[0m";
        "     l4    " +:+ ESC +:+ "[0m";
        "     l5    " +:+ ESC +:+ "[0m";
        "     l6    " +:+ ESC +:+ "[0m";
        ""], None).
Proof.
  split.
  - eexists. split; [vm_compute; reflexivity|]. by vm_compute.
  - by vm_compute.
Qed.

(** Two locations always make one chunk: the second one is the last, and
    the branch for the last location (line 176) closes the open chunk at
    it without looking at the distance. *)
Lemma two_locations_one_chunk (p q : Z) : Differ.chunks [p; q] = [(p, q)].
Proof.
  unfold Differ.chunks. cbn. unfold Differ.chunk_step. cbn.
  by rewrite andb_false_r.
Qed.

(** X11.  An edit list with exactly two edits that are not "equal" has
    one chunk, from the first of them to the second, however far apart
    they are. *)
Theorem two_changes_one_hunk (es : list Edit) :
  length (Spec.non_equal es) = 2%nat →
  ∃ p q, Differ.diff_locs es = [p; q]
         ∧ Differ.chunks (Differ.diff_locs es) = [(p, q)].
Proof.
  rewrite <- diff_locs_length. intros Hlen.
  destruct (Differ.diff_locs es) as [|p [|q [|]]]; try done.
  exists p, q. split; [done|]. apply two_locations_one_chunk.
Qed.

(** C8 (the code departs from the claim).  The two documents differ in
    their second and in their last line, with fourteen common lines
    between; the edit list has its two edits that are not "equal" at the
    positions 1 and 16, and they are put into one chunk. *)
Theorem far_changes_one_hunk :
  let doc1 := mkDocument "old" Inputs.far_old in
  let doc2 := mkDocument "new" Inputs.far_new in
  ∃ es, Differ.myers_git_diff (lines doc1) (lines doc2) = Ok es
        ∧ Differ.diff_locs es = [1; 16]
        ∧ length (Spec.non_equal es) = 2%nat
        ∧ Differ.chunks (Differ.diff_locs es) = [(1, 16)].
Proof.
  eexists. split; [vm_compute; reflexivity|].
  split_and!; [by vm_compute..|].
  apply two_locations_one_chunk.
Qed.

(** C6 (the code departs from the claim).  Diffing an empty document
    against an empty document ends with IndexError after the three
    heading lines: the search fails at line 29. *)
Theorem diff_empty_documents_raises (path1 path2 : string) :
  Differ.myers_git_diff (Spec.numbered []) (Spec.numbered []) = Raise IndexError
  ∧ Render.diff (mkDocument path1 []) (mkDocument path2 [])
    = (["Difference between:"; "a/ " +:+ path1; "b/ " +:+ path2],
       Some IndexError).
Proof. split; reflexivity. Qed.

(** * Further properties of the code *)

(** ** The distance search *)



(** The run of the snake: from a point with no negative coordinate the
    loop of lines 46-47 ends on the same diagonal; the lines it has passed
    are equal in text, pair by pair, and where it ends inside the grid
    the two lines differ. *)
Lemma snake_run (a b : list Line) fuel : ∀ x y,
  0 ≤ x → 0 ≤ y → (Z.to_nat (Py.len a - x) ≤ fuel)%nat →
  ∃ x', snake a b fuel x y = Ok (x', y + (x' - x)) ∧ x ≤ x'
    ∧ (∀ i, 0 ≤ i < x' - x →
         ∃ la lb, Py.get a (x + i) = Ok la ∧ Py.get b (y + i) = Ok lb
                  ∧ text la = text lb)
    ∧ (x' < Py.len a → y + (x' - x) < Py.len b →
         ∃ la lb, Py.get a x' = Ok la ∧ Py.get b (y + (x' - x)) = Ok lb
                  ∧ text la ≠ text lb).
Proof.
  induction fuel as [|fuel IH]; intros x y Hx Hy Hfuel; simpl.
  - exists x. split_and!; [|lia|lia|lia]. do 2 f_equal. lia.
  - destruct (decide (x < Py.len a)) as [Hxm|Hxm];
      [rewrite (bool_decide_true (x < _)) by done
      |rewrite (bool_decide_false (x < _)) by done]; simpl; last first.
    { exists x. split_and!; [|lia|lia|lia]. do 2 f_equal. lia. }
    destruct (decide (y < Py.len b)) as [Hyn|Hyn];
      [rewrite (bool_decide_true (y < _)) by done
      |rewrite (bool_decide_false (y < _)) by done]; simpl; last first.
    { exists x. split_and!; [|lia|lia|lia]. do 2 f_equal. lia. }
    destruct (get_in_range a x) as (ax & Hax & _); [lia|].
    destruct (get_in_range b y) as (by_ & Hby & _); [lia|].
    rewrite Hax, Hby. simpl.
    destruct (Line_eq ax by_) eqn:Heq.
    + destruct (IH (x + 1) (y + 1)) as (x' & -> & Hx' & Hrun & Hstop);
        [lia..|].
      exists x'. split_and!; [|lia| |].
      * do 2 f_equal. lia.
      * intros i Hi. destruct (decide (i = 0)) as [->|Hi0].
        -- exists ax, by_. rewrite !Z.add_0_r.
           split_and!; [done..|]. by apply bool_decide_eq_true in Heq.
        -- destruct (Hrun (i - 1)) as (la & lb & Ha & Hb & Ht); [lia|].
           exists la, lb.
           replace (x + i) with (x + 1 + (i - 1)) by lia.
           by replace (y + i) with (y + 1 + (i - 1)) by lia.
      * replace (y + (x' - x)) with (y + 1 + (x' - (x + 1))) by lia. done.
    + exists x. split_and!; [|lia|lia|].
      * do 2 f_equal. lia.
      * intros _ _. exists ax, by_. replace (y + (x - x)) with y by lia.
        split_and!; [done..|]. by apply bool_decide_eq_false in Heq.
Qed.

(** X3.  The snake, as line 46 starts it from a point (x, y) with no
    negative coordinate, ends at a point (x', y') of the same diagonal,
    not before (x, y); the lines between are equal in text, pair by pair,
    and if (x', y') is still inside the grid then a[x'] and b[y'] differ:
    the run is the longest one. *)
Theorem snake_spec (a b : list Line) (x y : Z) :
  0 ≤ x → 0 ≤ y →
  ∃ x', snake a b (Z.to_nat (Py.len a - x)) x y = Ok (x', y + (x' - x))
    ∧ x ≤ x'
    ∧ (∀ i, 0 ≤ i < x' - x →
         ∃ la lb, Py.get a (x + i) = Ok la ∧ Py.get b (y + i) = Ok lb
                  ∧ text la = text lb)
    ∧ (x' < Py.len a → y + (x' - x) < Py.len b →
         ∃ la lb, Py.get a x' = Ok la ∧ Py.get b (y + (x' - x)) = Ok lb
                  ∧ text la ≠ text lb).
Proof. intros Hx Hy. by apply snake_run. Qed.

Lemma snake_spec_witness :
  let a := Spec.numbered Inputs.abc in
  let b := Spec.numbered Inputs.axc in
  0 ≤ 0 ∧
  ∃ x', snake a b (Z.to_nat (Py.len a - 0)) 0 0 = Ok (x', 0 + (x' - 0))
    ∧ 0 ≤ x'
    ∧ (∀ i, 0 ≤ i < x' - 0 →
         ∃ la lb, Py.get a (0 + i) = Ok la ∧ Py.get b (0 + i) = Ok lb
                  ∧ text la = text lb)
    ∧ (x' < Py.len a → 0 + (x' - 0) < Py.len b →
         ∃ la lb, Py.get a x' = Ok la ∧ Py.get b (0 + (x' - 0)) = Ok lb
                  ∧ text la ≠ text lb).
Proof. split; [lia|]. apply snake_spec; lia. Defined.

(** ** The edit list *)

Lemma myers_git_diff_raise_inv (a b : list Line) (e : exn) :
  Differ.myers_git_diff a b = Raise e → a = [] ∧ b = [] ∧ e = IndexError.
Proof.
  intros Hr. destruct (decide (1 ≤ Py.len a + Py.len b)) as [Hone|Hnone].
  - destruct (myers_git_diff_ok a b Hone) as (es & Hes). congruence.
  - destruct a, b; unfold Py.len in Hnone; simpl in Hnone; try lia.
    split_and!; [done..|]. vm_compute in Hr. congruence.
Qed.

(** X4.  [myers_git_diff] raises for two empty sequences only, and then
    IndexError: when one of the sequences has a line, the search, the
    walk back through the trace and the classifier read no index out of
    range, and an edit list is returned. *)
Theorem myers_git_diff_raises_iff (a b : list Line) (e : exn) :
  Differ.myers_git_diff a b = Raise e ↔ a = [] ∧ b = [] ∧ e = IndexError.
Proof.
  split; [apply myers_git_diff_raise_inv|].
  intros (-> & -> & ->). reflexivity.
Qed.


(** ** The chunks *)

Lemma diff_locs_nil_equal (es : list Edit) :
  Differ.diff_locs es = [] ↔ Forall (λ e, edit_type e = equal) es.
Proof.
  split; [|apply diff_locs_equal].
  intros Hnil. apply Forall_lookup. intros i e Hi.
  destruct (decide (edit_type e = equal)) as [|Hne]; [done|].
  assert (Z.of_nat i ∈ Differ.diff_locs es) as Hin.
  { apply diff_locs_elem. by exists i, e. }
  rewrite Hnil in Hin. by apply elem_of_nil in Hin.
Qed.

(** As soon as there is a location there is a chunk. *)
Lemma chunks_not_nil (es : list Edit) :
  Differ.diff_locs es ≠ [] → Differ.chunks (Differ.diff_locs es) ≠ [].
Proof.
  destruct (diff_locs_sorted es) as [Hsort _].
  destruct (Differ.diff_locs es) as [|l0 [|l1 rest]]; [done|done|].
  intros _. rewrite chunks_group.
  destruct (group_spec (l1 :: rest) l0 l0) as (e & cs & -> & _);
    [lia|done|done|done].
Qed.

Lemma print_chunks_not_silent (es : list Edit) c cs :
  Render.print_chunks es (c :: cs) ≠ ([], None).
Proof.
  cbn [Render.print_chunks]. unfold Render.print_chunk.
  destruct (Differ.header (Differ.window es c)) as [h|x]; [|done].
  destruct (Render.print_edits (Differ.window es c)) as [out [x|]];
    [done|].
  unfold then_print. simpl.
  destruct (Render.print_chunks es cs). simpl. done.
Qed.

(** X8.  Nothing is printed for an edit list, and no exception raised,
    exactly when all its edits are "equal". *)
Theorem print_diff_silent_iff (es : list Edit) :
  Render.print_diff es = ([], None)
  ↔ Forall (λ e, edit_type e = equal) es.
Proof.
  rewrite <- diff_locs_nil_equal. unfold Render.print_diff. split.
  - intros Hp. destruct (Differ.diff_locs es) eqn:Hlocs; [done|].
    exfalso. pose proof (chunks_not_nil es) as Hne. rewrite Hlocs in Hne.
    destruct (Differ.chunks (z :: l)) as [|c cs]; [by apply Hne|].
    by apply print_chunks_not_silent in Hp.
  - intros ->. done.
Qed.

(** The chunks of two or more locations: their order, their ends and
    what they hold. *)
Lemma chunks_structure (es : list Edit) :
  (2 ≤ length (Spec.non_equal es))%nat →
  Grouping.gapped (Differ.chunks (Differ.diff_locs es))
  ∧ Forall (λ c, c.1 ∈ Differ.diff_locs es ∧ c.2 ∈ Differ.diff_locs es)
           (Differ.chunks (Differ.diff_locs es))
  ∧ ∀ l, l ∈ Differ.diff_locs es →
         ∃ c, c ∈ Differ.chunks (Differ.diff_locs es) ∧ Grouping.inside c l.
Proof.
  rewrite <- diff_locs_length. intros Hlen.
  destruct (diff_locs_sorted es) as [Hsort _].
  destruct (Differ.diff_locs es) as [|l0 [|l1 rest]];
    [simpl in Hlen; lia..|].
  rewrite chunks_group.
  destruct (group_spec (l1 :: rest) l0 l0)
    as (e & cs & -> & Hle & Hg & Hcov & Hends); [lia|done|done|].
  split_and!; [done| |].
  - eapply Forall_impl; [exact Hends|]. intros c [H1 H2]. split; [|done].
    destruct H1 as [->|H1]; [left|by right].
  - intros l Hl. apply elem_of_cons in Hl as [->|Hl]; [|by apply Hcov].
    exists (l0, e). split; [left|]. unfold Grouping.inside. simpl. lia.
Qed.

(** X12.  When the edit list has two or more edits that are not "equal",
    the chunks come in increasing order, each from the position of such
    an edit to the position of such an edit not before it, each starting
    more than BUFFER positions after the end of the one before; and every
    edit that is not "equal" lies between the start and the end of one of
    them. *)
Theorem chunks_gapped (es : list Edit) :
  (2 ≤ length (Spec.non_equal es))%nat →
  Grouping.gapped (Differ.chunks (Differ.diff_locs es))
  ∧ Forall (λ c, c.1 ∈ Differ.diff_locs es ∧ c.2 ∈ Differ.diff_locs es)
           (Differ.chunks (Differ.diff_locs es))
  ∧ ∀ l, l ∈ Differ.diff_locs es →
         ∃ c, c ∈ Differ.chunks (Differ.diff_locs es) ∧ Grouping.inside c l.
Proof. apply chunks_structure. Qed.

Lemma chunks_gapped_witness :
  (2 ≤ length (Spec.non_equal Inputs.two_changes))%nat
  ∧ Grouping.gapped (Differ.chunks (Differ.diff_locs Inputs.two_changes))
  ∧ Forall (λ c, c.1 ∈ Differ.diff_locs Inputs.two_changes
                 ∧ c.2 ∈ Differ.diff_locs Inputs.two_changes)
           (Differ.chunks (Differ.diff_locs Inputs.two_changes))
  ∧ ∀ l, l ∈ Differ.diff_locs Inputs.two_changes →
         ∃ c, c ∈ Differ.chunks (Differ.diff_locs Inputs.two_changes)
              ∧ Grouping.inside c l.
Proof.
  split; [vm_compute; lia|]. apply chunks_gapped. vm_compute. lia.
Defined.

(** X13.  When the edit list has two or more edits that are not "equal",
    the edits that a window holds before the start and after the end of
    its chunk, the context, are all "equal". *)
Theorem context_is_equal (es : list Edit) (c : Z * Z) (i : nat) (e : Edit) :
  (2 ≤ length (Spec.non_equal es))%nat →
  c ∈ Differ.chunks (Differ.diff_locs es) →
  Spec.covers es c (Z.of_nat i) → ¬ Grouping.inside c (Z.of_nat i) →
  es !! i = Some e →
  edit_type e = equal.
Proof.
  intros Hlen Hc Hcov Hout Hi.
  destruct (decide (edit_type e = equal)) as [|Hne]; [done|]. exfalso.
  assert (Z.of_nat i ∈ Differ.diff_locs es) as Hloc.
  { apply diff_locs_elem. by exists i, e. }
  destruct (chunks_structure es Hlen) as (Hg & _ & Hin).
  destruct (Hin _ Hloc) as (c' & Hc' & Hinside).
  pose proof (gapped_near_once _ (Z.of_nat i) Hg
                (ex_intro _ c' (conj Hc' Hinside))) as Hone.
  assert (c ∈ filter (λ c, Grouping.near c (Z.of_nat i))
                     (Differ.chunks (Differ.diff_locs es))) as H1.
  { apply list_elem_of_filter. split; [|done].
    unfold Spec.covers, Grouping.near, Differ.BUFFER in *. lia. }
  assert (c' ∈ filter (λ c, Grouping.near c (Z.of_nat i))
                      (Differ.chunks (Differ.diff_locs es))) as H2.
  { apply list_elem_of_filter. split; [|done].
    unfold Grouping.inside, Grouping.near, Differ.BUFFER in *. lia. }
  destruct (filter _ _) as [|z [|]]; simpl in Hone; try lia.
  apply list_elem_of_singleton in H1, H2. by subst.
Qed.

Lemma context_is_equal_witness :
  let es := Inputs.two_changes in
  let e := mkEdit equal (Some (mkLine 0 "a")) (Some (mkLine 0 "a")) in
  (2 ≤ length (Spec.non_equal es))%nat
  ∧ (1, 2) ∈ Differ.chunks (Differ.diff_locs es)
  ∧ Spec.covers es (1, 2) (Z.of_nat 0) ∧ ¬ Grouping.inside (1, 2) (Z.of_nat 0)
  ∧ es !! 0%nat = Some e
  ∧ edit_type e = equal.
Proof.
  assert ((2 ≤ length (Spec.non_equal Inputs.two_changes))%nat) as H1
    by (vm_compute; lia).
  assert ((1, 2) ∈ Differ.chunks (Differ.diff_locs Inputs.two_changes)) as H2
    by (vm_compute; left).
  assert (Spec.covers Inputs.two_changes (1, 2) (Z.of_nat 0)) as H3
    by (unfold Spec.covers, Differ.BUFFER, Py.len; simpl; lia).
  assert (¬ Grouping.inside (1, 2) (Z.of_nat 0)) as H4
    by (unfold Grouping.inside; simpl; lia).
  split_and!; [done..|].
  exact (context_is_equal Inputs.two_changes (1, 2) 0 _ H1 H2 H3 H4 eq_refl).
Defined.

Lemma changes_covered_once_witness :
  let es := Inputs.two_changes in
  let e := mkEdit delete (Some (mkLine 1 "b")) (Some (mkLine 1 "x")) in
  (2 ≤ length (Spec.non_equal es))%nat
  ∧ es !! 1%nat = Some e ∧ edit_type e ≠ equal
  ∧ length (Spec.hunks_covering es (Z.of_nat 1)) = 1%nat.
Proof.
  assert ((2 ≤ length (Spec.non_equal Inputs.two_changes))%nat) as H1
    by (vm_compute; lia).
  split_and!; [done|reflexivity|discriminate|].
  apply (changes_covered_once Inputs.two_changes 1 _ H1 eq_refl).
  discriminate.
Defined.

Lemma single_change_covered_witness :
  Differ.diff_locs Inputs.one_change = [1]
  ∧ Differ.chunks (Differ.diff_locs Inputs.one_change) = [(0, 0)]
  ∧ (length (Spec.hunks_covering Inputs.one_change 1) = 1%nat
     ↔ 1 ≤ Differ.BUFFER).
Proof.
  split; [reflexivity|]. apply single_change_covered. reflexivity.
Defined.

Lemma two_changes_one_hunk_witness :
  length (Spec.non_equal Inputs.two_changes) = 2%nat
  ∧ ∃ p q, Differ.diff_locs Inputs.two_changes = [p; q]
           ∧ Differ.chunks (Differ.diff_locs Inputs.two_changes) = [(p, q)].
Proof.
  split; [reflexivity|]. apply two_changes_one_hunk. reflexivity.
Defined.

Lemma diff_same_lines_witness :
  let a := Spec.numbered Inputs.abc in
  a ≠ []
  ∧ Differ.myers_git_diff a a = Ok (Spec.same <$> a)
  ∧ Render.print_diff (Spec.same <$> a) = ([], None).
Proof.
  assert (Spec.numbered Inputs.abc ≠ []) as H by (vm_compute; discriminate).
  split; [exact H|]. exact (diff_same_lines _ H).
Defined.

Lemma diff_same_documents_witness :
  let doc1 := mkDocument "old" Inputs.abc in
  let doc2 := mkDocument "new" Inputs.abc in
  content doc1 = content doc2 ∧ content doc1 ≠ []
  ∧ Render.diff doc1 doc2
    = (["Difference between:"; "a/ " +:+ filepath doc1; "b/ " +:+ filepath doc2],
       None).
Proof.
  split; [reflexivity|]. split; [discriminate|].
  apply diff_same_documents; [reflexivity|discriminate].
Defined.

(** ** The header of a chunk *)

Lemma count_complement (t : EditType) (w : list Edit) :
  Py.len w - Differ.count_type t w
  = Z.of_nat (length (filter (λ e, edit_type e ≠ t) w)).
Proof.
  unfold Differ.count_type, Py.len.
  induction w as [|e w IH]; [done|].
  destruct (decide (edit_type e = t)) as [Heq|Hne].
  - rewrite (filter_cons_True (λ e, edit_type e = t)) by done.
    rewrite (filter_cons_False (λ e, edit_type e ≠ t)) by (intros H; done).
    simpl length. lia.
  - rewrite (filter_cons_False (λ e, edit_type e = t)) by done.
    rewrite (filter_cons_True (λ e, edit_type e ≠ t)) by done.
    simpl length. lia.
Qed.

(** X14.  The header of a window: IndexError for an empty window,
    AttributeError when the first edit lacks its old or its new line, and
    otherwise the text [@@   -s,l +s',l'   @@], where s and s' are the
    numbers of the old and the new line of the first edit, l is the number
    of edits of the window that are not inserts and l' the number of those
    that are not deletes. *)
Theorem header_counts (w : list Edit) :
  Differ.header w
  = match w with
    | [] => Raise IndexError
    | e :: _ =>
        match old e, new e with
        | Some lo, Some ln =>
            Ok ("@@   -" +:+ pretty (num lo) +:+ "," +:+
                pretty (Z.of_nat (length (Spec.old_side w))) +:+
                " +" +:+ pretty (num ln) +:+ "," +:+
                pretty (Z.of_nat (length (Spec.new_side w))) +:+ "   @@")
        | _, _ => Raise AttributeError
        end
    end.
Proof.
  unfold Differ.header, Spec.old_side, Spec.new_side.
  rewrite !count_complement, !length_fmap.
  destruct w as [|e w]; [done|].
  change (Py.get (e :: w) 0) with (Ok e). cbn [mbind Result_bind].
  destruct (old e) as [lo|]; [|done]. cbn [attr_num mbind Result_bind].
  destruct (new e) as [ln|]; done.
Qed.

(** ** The printed line of an edit *)

Lemma string_length_app (s t : string) :
  String.length (s +:+ t) = (String.length s + String.length t)%nat.
Proof.
  induction s as [|c s IH]; [done|].
  change (S (String.length (s +:+ t)) = S (String.length s + String.length t)).
  by rewrite IH.
Qed.

Lemma string_app_inv_tail (s1 s2 t : string) :
  s1 +:+ t = s2 +:+ t → s1 = s2.
Proof.
  revert s2. induction s1 as [|c s1 IH]; intros [|c' s2] Heq.
  - done.
  - apply (f_equal String.length) in Heq.
    change (String.length t = S (String.length (s2 +:+ t))) in Heq.
    rewrite string_length_app in Heq. lia.
  - apply (f_equal String.length) in Heq.
    change (S (String.length (s1 +:+ t)) = String.length t) in Heq.
    rewrite string_length_app in Heq. lia.
  - change (String c (s1 +:+ t) = String c' (s2 +:+ t)) in Heq.
    injection Heq as -> Heq. f_equal. by apply IH.
Qed.

(** X15.  The line printed for an edit tells its type and the text it
    shows: two edits that print as the same line have the same type and
    show the same text. *)
Theorem Edit_str_injective (e1 e2 : Edit) (s : string) :
  Edit_str e1 = Ok s → Edit_str e2 = Ok s → Spec.shown e1 = Spec.shown e2.
Proof.
  unfold Edit_str, Spec.shown, prefix.
  intros H1 H2.
  apply bind_Ok in H1 as (t1 & Ht1 & H1).
  apply bind_Ok in H2 as (t2 & Ht2 & H2).
  injection H1 as H1. injection H2 as H2. subst s.
  assert (∀ x t, attr_text x = Ok t → text <$> x = Some t) as Hshow.
  { intros [l|] t; simpl; congruence. }
  apply Hshow in Ht1, Ht2. rewrite Ht1, Ht2. clear Hshow Ht1 Ht2.
  destruct (edit_type e1), (edit_type e2); cbv in H2;
    try discriminate H2; simplify_eq; do 2 f_equal;
    by eapply string_app_inv_tail.
Qed.

Lemma Edit_str_injective_witness :
  let e1 := mkEdit insert None (Some (mkLine 1 "x")) in
  let e2 := mkEdit insert (Some (mkLine 2 "c")) (Some (mkLine 7 "x")) in
  ∃ s, Edit_str e1 = Ok s ∧ Edit_str e2 = Ok s
       ∧ Spec.shown e1 = Spec.shown e2.
Proof.
  eexists. split; [vm_compute; reflexivity|]. split; [vm_compute; reflexivity|].
  eapply Edit_str_injective; vm_compute; reflexivity.
Defined.

(** ** The lines of a document *)

(** The loop of lines 18-19 keeps the texts it is given in order and
    numbers them from 0. *)
Lemma lines_enumerate (doc : Document) :
  text <$> lines doc = content doc
  ∧ num <$> lines doc = Z.of_nat <$> seq 0 (length (content doc)).
Proof.
  unfold lines. generalize Z.of_nat. generalize (content doc).
  induction l as [|t l IH]; intros g; [done|].
  destruct (IH (g ∘ S)) as [IH1 IH2].
  cbn [imap fmap list_fmap length seq]. split.
  - f_equal. exact IH1.
  - f_equal. etrans; [exact IH2|]. by rewrite <- fmap_S_seq, <- list_fmap_compose.
Qed.

(** ** The walk back along a snake *)

Lemma back_snake_run (prev_x prev_y : Z) fuel : ∀ x y,
  (Z.to_nat (x - prev_x) ≤ fuel)%nat →
  back_snake fuel x y prev_x prev_y
  = ((λ i : nat, (x - 1 - Z.of_nat i, y - 1 - Z.of_nat i,
                  x - Z.of_nat i, y - Z.of_nat i))
       <$> seq 0 (Z.to_nat (Z.min (x - prev_x) (y - prev_y))),
     (x - Z.max 0 (Z.min (x - prev_x) (y - prev_y)),
      y - Z.max 0 (Z.min (x - prev_x) (y - prev_y)))).
Proof.
  induction fuel as [|fuel IH]; intros x y Hfuel.
  - replace (Z.to_nat (Z.min (x - prev_x) (y - prev_y))) with 0%nat by lia.
    simpl. apply (f_equal2 pair); [done|apply (f_equal2 pair); lia].
  - cbn [back_snake].
    destruct (decide (x > prev_x ∧ y > prev_y)) as [[Hx Hy]|Hno].
    + rewrite !bool_decide_true by done. cbn [andb].
      rewrite IH by lia. cbn [fst snd].
      replace (Z.to_nat (Z.min (x - prev_x) (y - prev_y)))
        with (S (Z.to_nat (Z.min (x - 1 - prev_x) (y - 1 - prev_y)))) by lia.
      cbn [seq fmap list_fmap]. rewrite <- fmap_S_seq, <- list_fmap_compose.
      f_equal.
      * f_equal; [repeat (apply (f_equal2 pair)); lia|].
        apply list_fmap_ext. intros _ i _. cbn [compose].
        repeat (apply (f_equal2 pair)); lia.
      * apply (f_equal2 pair); lia.
    + replace (Z.to_nat (Z.min (x - prev_x) (y - prev_y))) with 0%nat by lia.
      assert (bool_decide (x > prev_x) && bool_decide (y > prev_y) = false)
        as ->.
      { apply andb_false_iff.
        destruct (decide (x > prev_x)); [right|left];
          apply bool_decide_eq_false; lia. }
      simpl. apply (f_equal2 pair); [done|apply (f_equal2 pair); lia].
Qed.

(** X17.  The loop that walks back along a snake (lines 83-85, and
    95-97 with (0, 0) as the point to reach) yields as many diagonal
    moves as the smaller of the two distances x - prev_x and y - prev_y,
    none if that is not positive: the moves that end at (x, y),
    (x - 1, y - 1), ... in this order, and it stops that many steps down
    the diagonal. *)
Theorem back_snake_spec (x y prev_x prev_y : Z) :
  back_snake (Z.to_nat (x - prev_x)) x y prev_x prev_y
  = ((λ i : nat, (x - 1 - Z.of_nat i, y - 1 - Z.of_nat i,
                  x - Z.of_nat i, y - Z.of_nat i))
       <$> seq 0 (Z.to_nat (Z.min (x - prev_x) (y - prev_y))),
     (x - Z.max 0 (Z.min (x - prev_x) (y - prev_y)),
      y - Z.max 0 (Z.min (x - prev_x) (y - prev_y)))).
Proof. by apply back_snake_run. Qed.

(** ** The empty trace *)

(** A read at an index that is not negative succeeds only below the
    length, and reads the element at that position. *)
Lemma get_nonneg {A} (l : list A) i x :
  0 ≤ i → Py.get l i = Ok x → i < Py.len l ∧ l !! Z.to_nat i = Some x.
Proof.
  intros Hi. unfold Py.get, Py.index, Py.len.
  repeat case_decide; try done; try lia.
  destruct (l !! Z.to_nat i) eqn:Hl; [|done]. intros [= ->]. split; [lia|done].
Qed.

(** The rounds of the search only append to the trace. *)
Lemma for_d_extends (a b : list Line) ds : ∀ v trace tr st,
  for_d a b ds v trace = Ok (tr, st) → ∃ suffix, tr = trace ++ suffix.
Proof.
  induction ds as [|d ds IH]; intros v trace tr st; [done|].
  cbn [for_d]. intros (r & Hr & Hrest)%bind_Ok.
  destruct r as [v'|st'].
  - apply IH in Hrest as (suffix & ->). exists (v' :: suffix).
    by rewrite <- app_assoc.
  - injection Hrest as <- _. exists []. by rewrite app_nil_r.
Qed.

(** The round of distance 0: the snake from (0, 0), then the test of
    line 51; if it fails the search goes on with one snapshot. *)
Lemma first_round (a b : list Line) :
  1 ≤ Py.len a + Py.len b →
  ∃ x v', snake a b (Z.to_nat (Py.len a)) 0 0 = Ok (x, x)
    ∧ myers_search a b
      = if at_end (Py.len a) (Py.len b) x x then Ok ([], mkStop 0 0 x x)
        else for_d a b (Z.of_nat <$> seq 1 (Z.to_nat (Py.len a + Py.len b)))
               v' [v'].
Proof.
  intros Hone. unfold myers_search.
  destruct (set_spec
    (replicate (Z.to_nat (2 * (Py.len a + Py.len b) + 1)) (-1)) 1 0)
    as (v & -> & Hlen & Hget & _).
  { unfold Py.len at 1 4. rewrite length_replicate. lia. }
  destruct (snake_ok a b (Z.to_nat (Py.len a)) 0 0) as (x & Hsnake & _);
    [done..|].
  replace (0 + (x - 0)) with x in Hsnake by lia.
  destruct (set_spec v 0 x) as (v' & Hset & _).
  { unfold Py.len. rewrite Hlen, length_replicate. lia. }
  exists x, v'. split; [done|].
  cbn [mbind Result_bind]. rewrite range_distances.
  replace (Z.to_nat (Py.len a + Py.len b + 1))
    with (S (Z.to_nat (Py.len a + Py.len b))) by lia.
  cbn [seq fmap list_fmap for_d]. change (Z.of_nat 0) with 0.
  change (PyIter.range (- 0) (0 + 1) 2) with [0]. cbn [for_k].
  assert (extend a b 0 0 v = Ok (v', x, x)) as ->.
  { unfold extend, start_x, goes_down.
    rewrite bool_decide_true by done. cbn [mbind Result_bind].
    change (0 + 1) with 1. rewrite Hget. cbn [mbind Result_bind].
    change (0 - 0) with 0. rewrite Z.sub_0_r, Hsnake.
    cbn [mbind Result_bind fst snd]. by rewrite Hset. }
  cbn [mbind Result_bind].
  destruct (at_end (Py.len a) (Py.len b) x x); [done|].
  cbn [for_k mbind Result_bind app]. done.
Qed.

(** X18.  [myers_diff] returns the empty trace exactly when the first
    sequence has a line and the two sequences have the same texts, line
    by line: only then does the snake of the round of distance 0 pass the
    test of line 51, and every later round returns a trace with a
    snapshot in it. *)
Theorem myers_diff_no_trace (a b : list Line) :
  myers_diff a b = Ok [] ↔ a ≠ [] ∧ text <$> a = text <$> b.
Proof.
  split.
  - intros ([tr st] & Hs & [= Htr])%bind_Ok. simpl in Htr. subst tr.
    destruct (decide (1 ≤ Py.len a + Py.len b)) as [Hone|Hnone]; last first.
    { destruct a, b; unfold Py.len in Hnone; simpl in Hnone; try lia.
      vm_compute in Hs. done. }
    destruct (first_round a b Hone) as (x & v' & Hsnake & Hfirst).
    rewrite Hs in Hfirst.
    destruct (at_end (Py.len a) (Py.len b) x x) eqn:Hend; last first.
    { symmetry in Hfirst. apply for_d_extends in Hfirst as (suffix & Hsuf).
      done. }
    apply andb_true_iff in Hend as [Hxn%bool_decide_eq_true
                                    Hxm%bool_decide_eq_true].
    destruct (snake_run a b (Z.to_nat (Py.len a)) 0 0)
      as (x' & Hsnake' & _ & Hrun & _); [lia..|].
    rewrite Hsnake in Hsnake'. injection Hsnake' as Hx _.
    subst x'.
    assert (x = Py.len a ∧ x = Py.len b) as [Hm Hn].
    { destruct (decide (x ≤ 0)) as [|Hpos]; [lia|].
      destruct (Hrun (x - 1)) as (la & lb & Hla & Hlb & _); [lia|].
      apply get_nonneg in Hla as [? _]; [|lia].
      apply get_nonneg in Hlb as [? _]; [|lia]. lia. }
    split.
    { intros ->. unfold Py.len in *. simpl in *. lia. }
    apply list_eq. intros i. rewrite !list_lookup_fmap.
    destruct (decide (Z.of_nat i < x)) as [Hi|Hi].
    + destruct (Hrun (Z.of_nat i)) as (la & lb & Hla & Hlb & Htext); [lia|].
      apply get_nonneg in Hla as [_ Hla]; [|lia].
      apply get_nonneg in Hlb as [_ Hlb]; [|lia].
      rewrite Z.add_0_l, Nat2Z.id in Hla, Hlb.
      rewrite Hla, Hlb. simpl. by rewrite Htext.
    + unfold Py.len in Hm, Hn.
      rewrite !lookup_ge_None_2 by lia. done.
  - intros [Hne Heq].
    assert (Py.len a = Py.len b) as Hlen.
    { unfold Py.len. f_equal.
      by rewrite <- (length_fmap text a), Heq, length_fmap. }
    assert (1 ≤ Py.len a) as Hm.
    { destruct a; [done|]. unfold Py.len. simpl. lia. }
    destruct (first_round a b) as (x & v' & Hsnake & Hfirst);
      [pose proof (len_nonneg b); lia|].
    destruct (snake_run a b (Z.to_nat (Py.len a)) 0 0)
      as (x' & Hsnake' & Hx' & _ & Hstop); [lia..|].
    rewrite Hsnake in Hsnake'. injection Hsnake' as Hx _.
    subst x'. rewrite Z.add_0_l, Z.sub_0_r in Hstop.
    assert (Py.len a ≤ x) as Hx.
    { destruct (decide (Py.len a ≤ x)) as [|Hlt]; [done|].
      destruct Hstop as (la & lb & Hla & Hlb & Htext); [lia..|].
      apply get_nonneg in Hla as [_ Hla]; [|lia].
      apply get_nonneg in Hlb as [_ Hlb]; [|lia].
      exfalso. apply Htext.
      assert ((text <$> a) !! Z.to_nat x = (text <$> b) !! Z.to_nat x)
        as Hl by (by rewrite Heq).
      rewrite !list_lookup_fmap, Hla, Hlb in Hl. by injection Hl. }
    unfold myers_diff. rewrite Hfirst. unfold at_end.
    rewrite !bool_decide_true by lia. done.
Qed.

(** ** What is printed for the chunks *)

Section Layout.

Import Differ Render Spec.

Lemma print_edits_layout w :
  Forall has_lines w →
  ∃ ss, Forall2 (λ e s, Edit_str e = Ok s) w ss ∧ print_edits w = (ss, None).
Proof.
  induction 1 as [|e w He _ (ss & Hss & IH)]; [by exists []|].
  destruct (Edit_str_has_lines e He) as [s Hs].
  exists (s :: ss). split; [by constructor|].
  cbn [print_edits]. by rewrite Hs, IH.
Qed.

Lemma print_chunks_layout es cs :
  Forall has_lines es → Forall (λ c, 0 ≤ c.1 ∧ c.1 ≤ c.2 < Py.len es) cs →
  ∃ blocks, Forall2 (λ c blk, block_of (window es c) blk) cs blocks
            ∧ print_chunks es cs = (concat blocks, None).
Proof.
  intros Hall. induction 1 as [|c cs Hc _ (blocks & Hblocks & IH)];
    [by exists []|].
  pose proof (window_Forall _ es c Hall) as Hw.
  destruct (window_first es c Hc) as (e & He).
  destruct (header_returns _ _ Hw He) as (h & Hh).
  destruct (print_edits_layout _ Hw) as (ss & Hss & Hp).
  exists ((h :: ss ++ [""]) :: blocks). split.
  - constructor; [|done]. by exists h, ss.
  - cbn [print_chunks]. unfold print_chunk. rewrite Hh, Hp, IH. done.
Qed.

(** X19.  For an edit list whose edits all carry both lines, what is
    printed is one block for each chunk, in the order of the chunks and
    with nothing between them: the header of the chunk's window, the
    line of each edit of the window, in order, and an empty line; no
    exception ends the printing. *)
Theorem print_diff_layout es :
  Forall has_lines es →
  ∃ blocks,
    Forall2 (λ c blk, block_of (window es c) blk) (chunks (diff_locs es)) blocks
    ∧ print_diff es = (concat blocks, None).
Proof.
  intros Hall. apply print_chunks_layout; [done|]. apply chunks_in_range.
Qed.

Lemma print_diff_layout_witness :
  Forall has_lines Inputs.two_changes
  ∧ ∃ blocks,
      Forall2 (λ c blk, block_of (window Inputs.two_changes c) blk)
              (chunks (diff_locs Inputs.two_changes)) blocks
      ∧ print_diff Inputs.two_changes = (concat blocks, None).
Proof.
  assert (Forall has_lines Inputs.two_changes) as H.
  { repeat constructor; eexists; reflexivity. }
  split; [exact H|]. exact (print_diff_layout _ H).
Defined.

End Layout.

(** ** Documents read from their files *)

Section Reading.

Import Spec.

Lemma rstrip_other c s : c ≠ LF → rstrip (String c s) = String c (rstrip s).
Proof.
  intros Hc. cbn [rstrip]. destruct (rstrip s); [|done].
  by rewrite bool_decide_false.
Qed.

Lemma readlines_nil s : readlines s = [] ↔ s = EmptyString.
Proof.
  split; [|by intros ->]. destruct s as [|c s]; [done|]. cbn [readlines].
  case_bool_decide; [done|]. by destruct (readlines s).
Qed.

Lemma closed_more c s :
  s ≠ EmptyString → closed (String c s) = String c (closed s).
Proof.
  intros Hs. destruct s as [|c' s]; [done|]. unfold closed.
  change (ends_with_newline (String c (String c' s)))
    with (ends_with_newline (String c' s)).
  rewrite !(bool_decide_false (String _ _ = EmptyString)) by done.
  rewrite !orb_false_r. by destruct (ends_with_newline (String c' s)).
Qed.

(** The lines read from a text, stripped, give the text back. *)
Lemma unlines_readlines s :
  unlines (rstrip <$> readlines s) = closed s
  ∧ Forall newline_free (rstrip <$> readlines s).
Proof.
  induction s as [|c s [IH1 IH2]]; [by split; [|constructor]|].
  cbn [readlines]. destruct (decide (c = LF)) as [->|Hc].
  - rewrite bool_decide_true by done. cbn [fmap list_fmap].
    change (rstrip (String LF EmptyString)) with EmptyString. split.
    + cbn [unlines foldr]. fold (unlines (rstrip <$> readlines s)).
      rewrite IH1. destruct s as [|c' s]; [done|].
      rewrite (closed_more LF) by done. reflexivity.
    + constructor; [|done]. unfold newline_free. simpl. apply not_elem_of_nil.
  - rewrite bool_decide_false by done.
    destruct (readlines s) as [|l ls] eqn:Hl.
    + apply readlines_nil in Hl as ->. cbn [fmap list_fmap].
      rewrite rstrip_other by done. split.
      * unfold closed. cbn. by rewrite !bool_decide_false.
      * constructor; [|done]. unfold newline_free. simpl.
        rewrite elem_of_cons. intros [?|[]%elem_of_nil]. done.
    + cbn [fmap list_fmap] in *. rewrite rstrip_other by done.
      apply Forall_cons in IH2 as [IHl IHls]. split.
      * cbn [unlines foldr] in *. fold (unlines (rstrip <$> ls)) in *.
        rewrite closed_more by (by intros ->).
        rewrite <- IH1. done.
      * constructor; [|done]. unfold newline_free in *. simpl.
        rewrite elem_of_cons. intros [?|?]; done.
Qed.

(** Reading a readable file is [lines] on the stripped lines of its
    text. *)
Lemma lines_of_text fs path s :
  fs path = Text s →
  Files.lines fs path = Ok (lines (mkDocument path (rstrip <$> readlines s))).
Proof.
  intros Hs. unfold Files.lines, lines. rewrite Hs. cbn [content].
  f_equal. by rewrite imap_fmap.
Qed.

(** X16.  For a file that is read as the text [s], [Document.lines]
    returns lines numbered from 0, none with a "\n" in its text, one for
    each line of [s]: their texts, each followed by "\n", give [s] back,
    with a "\n" added when [s] has a last line that lacks it.  There is
    no line exactly when [s] is empty. *)
Theorem lines_numbered (fs : Files.FileSystem) (path s : string) :
  fs path = Text s →
  ∃ ls, Files.lines fs path = Ok ls
        ∧ num <$> ls = Z.of_nat <$> seq 0 (length ls)
        ∧ Forall (λ l, newline_free (text l)) ls
        ∧ unlines (text <$> ls) = closed s
        ∧ (ls = [] ↔ s = EmptyString).
Proof.
  intros Hs. eexists. split; [by apply lines_of_text|].
  destruct (lines_enumerate (mkDocument path (rstrip <$> readlines s)))
    as [Htext Hnum].
  destruct (unlines_readlines s) as [Hun Hfree]. cbn [content] in *.
  split_and!.
  - rewrite Hnum. by rewrite <- (length_fmap text), Htext.
  - apply Forall_forall. intros l Hl. rewrite Forall_forall in Hfree.
    apply Hfree. rewrite <- Htext. by apply list_elem_of_fmap_2.
  - by rewrite Htext.
  - rewrite <- readlines_nil. unfold lines. cbn [content].
    destruct (readlines s); done.
Qed.

Lemma lines_numbered_witness :
  let fs : Files.FileSystem := λ _, Text Inputs.text_ab in
  fs "old" = Text Inputs.text_ab
  ∧ ∃ ls, Files.lines fs "old" = Ok ls
        ∧ num <$> ls = Z.of_nat <$> seq 0 (length ls)
        ∧ Forall (λ l, newline_free (text l)) ls
        ∧ unlines (text <$> ls) = closed Inputs.text_ab
        ∧ (ls = [] ↔ Inputs.text_ab = EmptyString).
Proof.
  split; [reflexivity|].
  exact (lines_numbered (λ _, Text Inputs.text_ab) "old" _ eq_refl).
Defined.


End Reading.
